(** * Product search: fuzzy filter, similarity score and reply formatter

    A shallow embedding of the search core of [index.js]:
    [levenshteinDistance], [calculateSimilarity], [filterProductsWithFuzzy]
    and [formatProductResponse], followed by the properties the
    specification states about them.  Part III adds the code around that
    core: the catalog cache of [queryMySQLProducts], the [/webhook]
    handler, the corrected-name cache of [preprocessWithGemini], the
    grouping of variant rows in [fetchAllProductsFromMySQL], and the
    transaction of [saveProductsToMySQL] in [shopify-to-mysql-sync.js].

    Conventions of the embedding.
    - A JavaScript string is the list of its UTF-16 code units; [length],
      [substring], [includes], [split] and [charAt] all work on code units.
    - Array lengths, indices and edit distances are natural numbers; the
      arithmetic the source does on them is done in [Z] where a difference
      could be negative.
    - [calculateSimilarity] returns the exact quotient as a rational.  The
      source compares the double quotient with the double [0.6]; for two
      integers below 2^50 the two comparisons agree, so the threshold test
      is the rational one.
    - [Math.floor(n * 0.7)] and its siblings are computed as the source
      does, in binary64: the product is rounded to 53 significant bits
      (ties to even) before the floor is taken.
    - [console.log] calls are dropped.
    - What the code awaits from outside (the database, the Gemini answer,
      the clock) is an argument of the function that awaits it; a call
      that may throw yields an [outcome]. *)

From Stdlib Require Import ZArith QArith Lia List Bool Ascii String DecimalString.
From stdpp Require Import base list gmap.

Local Open Scope nat_scope.

(** * Part I: the embedding *)

(** ** Strings *)

Module JsString.

Definition code_unit := N.
Definition jsstring := list code_unit.

(** A string literal whose characters are all ASCII. *)
Definition js (s : string) : jsstring :=
  List.map N_of_ascii (list_ascii_of_string s).

Definition code_eqb (c d : code_unit) : bool := N.eqb c d.

(** [s.startsWith(needle)] at position 0; the building block of
    [includes]. *)
Fixpoint startsWith (s needle : jsstring) {struct needle} : bool :=
  match needle, s with
  | [], _ => true
  | _ :: _, [] => false
  | c :: needle', d :: s' => code_eqb c d && startsWith s' needle'
  end.

(** [s.includes(needle)]. *)
Fixpoint includes (s needle : jsstring) : bool :=
  startsWith s needle ||
  match s with
  | [] => false
  | _ :: s' => includes s' needle
  end.

(** [s.substring(a, b)]: both indices are clamped to the length and
    swapped when [a > b]. *)
Definition substring (s : jsstring) (a b : nat) : jsstring :=
  let lo := Nat.min a b in
  let hi := Nat.max a b in
  take (hi - lo) (drop lo s).

(** [s.split(sep)] for a separator of one code unit. *)
Fixpoint split (sep : code_unit) (s : jsstring) : list jsstring :=
  match s with
  | [] => [[]]
  | c :: s' =>
      if code_eqb c sep then [] :: split sep s'
      else match split sep s' with
           | w :: ws => (c :: w) :: ws
           | [] => [[c]]
           end
  end.

Definition space : code_unit := 32%N.
Definition LF : code_unit := 10%N.

(** [arr.join(sep)]. *)
Fixpoint join (sep : jsstring) (arr : list jsstring) : jsstring :=
  match arr with
  | [] => []
  | [w] => w
  | w :: ws => w ++ sep ++ join sep ws
  end.

(** [String(n)] for a non-negative integer below 1e21. *)
Definition nat_toString (n : nat) : jsstring :=
  js (NilEmpty.string_of_uint (Nat.to_uint n)).

(** The host's [String.prototype.toLowerCase].  The matcher only ever
    calls it, so it is left to the host; [asciiLower] below is its
    restriction to ASCII text. *)
Class ToLowerCase := toLowerCase : jsstring -> jsstring.

Definition asciiLower : ToLowerCase :=
  List.map (fun c => if ((65 <=? c) && (c <=? 90))%N then (c + 32)%N else c).

(** An argument that the source tests with [Array.isArray]. *)
Inductive jsarg (A : Type) : Type :=
  | NotArray
  | JsArray (items : list A).
Arguments NotArray {A}.
Arguments JsArray {A} items.

End JsString.
Import JsString.

(** ** Double arithmetic of [Math.floor(n * c)] *)

Module Double.

(** Round a non-negative integer to 53 significant bits, ties to even.
    Rounding commutes with scaling by a power of two, so this is the
    binary64 rounding of [n / 2^54] scaled back by [2^54]. *)
Definition round53 (n : Z) : Z :=
  let s := (Z.log2 n - 52)%Z in
  if (s <=? 0)%Z then n
  else
    let q := (n / 2 ^ s)%Z in
    let r := (n mod 2 ^ s)%Z in
    let half := (2 ^ (s - 1))%Z in
    if (half <? r)%Z || ((r =? half)%Z && Z.odd q)
    then ((q + 1) * 2 ^ s)%Z
    else (q * 2 ^ s)%Z.

(** The doubles nearest to 0.7, 0.6 and 0.4, as numerators over [2^54]
    (0x1.6666666666666p-1, 0x1.3333333333333p-1, 0x1.999999999999ap-2). *)
Definition d0_7 : Z := 12610078956637388.
Definition d0_6 : Z := 10808639105689190.
Definition d0_4 : Z := 7205759403792794.

(** [Math.floor(n * c)] for an integer [n] and the double [c / 2^54]. *)
Definition floor_mul (n : nat) (c : Z) : Z :=
  (round53 (Z.of_nat n * c) / 2 ^ 54)%Z.

End Double.
Import Double.

(** ** Similarity scorer *)

Module Scorer.

(** One pass of the inner loop [for j = 1 .. str1.length], filling row
    [i] of the matrix.  [prev] is the rest of row [i-1] starting at
    column [j-1], and [left] is [matrix[i][j-1]]. *)
Fixpoint fill_row (c2 : code_unit) (str1 : jsstring) (prev : list nat)
    (left : nat) : list nat :=
  match str1, prev with
  | c1 :: str1', diag :: ((up :: _) as prev') =>
      let v :=
        if code_eqb c2 c1 then diag
        else Nat.min (diag + 1) (Nat.min (left + 1) (up + 1)) in
      v :: fill_row c2 str1' prev' v
  | _, _ => []
  end.

(** Rows [i ..] of the matrix, given row [i-1]; [matrix[i]] starts as
    [[i]]. *)
Fixpoint fill_rows (str1 str2 : jsstring) (i : nat) (prev : list nat)
    : list (list nat) :=
  match str2 with
  | [] => []
  | c2 :: str2' =>
      let row := i :: fill_row c2 str1 prev i in
      row :: fill_rows str1 str2' (S i) row
  end.

(** The whole matrix: row 0 is [0, 1, ..., str1.length]. *)
Definition matrix (str1 str2 : jsstring) : list (list nat) :=
  let row0 := seq 0 (S (length str1)) in
  row0 :: fill_rows str1 str2 1 row0.

(** [matrix[str2.length][str1.length]]. *)
Definition levenshteinDistance (str1 str2 : jsstring) : nat :=
  nth (length str1) (nth (length str2) (matrix str1 str2) []) 0.

Definition calculateSimilarity (str1 str2 : jsstring) : Q :=
  let longer := if length str2 <? length str1 then str1 else str2 in
  let shorter := if length str2 <? length str1 then str2 else str1 in
  if length longer =? 0 then 1%Q
  else
    let distance := levenshteinDistance longer shorter in
    (inject_Z (Z.of_nat (length longer) - Z.of_nat distance)
       / inject_Z (Z.of_nat (length longer)))%Q.

Definition FUZZY_THRESHOLD : Q := 6 # 10.

End Scorer.
Import Scorer.

(** ** Data model *)

(** A price as the formatter observes it: whether [variant.price] is
    truthy, and the text of [parseFloat(variant.price).toFixed(2)]. *)
Record jsprice := {
  price_truthy : bool;
  price_toFixed2 : jsstring
}.

Record variant := {
  v_title : option jsstring;
  v_price : jsprice;
  v_inventory_quantity : Z;
  v_available_for_sale : bool
}.

Record product := {
  p_id : jsstring;
  p_title : jsstring;
  p_description : option jsstring;
  p_tags : option jsstring;
  p_image : option jsstring;
  p_imageAlt : option jsstring;
  p_variants : list variant
}.

(** ** Matcher and filter *)

Module Matcher.

(** The inner [for (const searchWord of searchText.split(' '))] loop,
    shared by both passes. *)
Definition similar_word (searchText word : jsstring) : bool :=
  existsb
    (fun searchWord =>
       (3 <? length searchWord) &&
       Qle_bool FUZZY_THRESHOLD (calculateSimilarity word searchWord))
    (split space searchText).

(** [for (let i = 0; i <= last; i++)] over the windows
    [word.substring(i, i + len)], returning at the first one the text
    includes. *)
Definition window_found (searchText word : jsstring) (len last : Z) : bool :=
  existsb
    (fun i => includes searchText (substring word i (i + Z.to_nat len)))
    (seq 0 (Z.to_nat (last + 1))).

(** The callback of [searchWords.some]: the match decision for one word. *)
Definition word_hasMatch (searchText word : jsstring) : bool :=
  if includes searchText word then true
  else
    let wordLength := length word in
    if 5 <? wordLength then
      let minSubstringLength := Z.max 5 (floor_mul wordLength d0_7) in
      if window_found searchText word minSubstringLength
           (Z.of_nat wordLength - minSubstringLength)
      then true
      else if 4 <? wordLength then similar_word searchText word
      else false
    else false.

(** The callback of the second pass, [searchWords.filter], whose result
    is only logged. *)
Definition word_matched (searchText word : jsstring) : bool :=
  if includes searchText word then true
  else
    let wordLength := length word in
    if 3 <? wordLength then
      let minSubstringLength := Z.max 3 (floor_mul wordLength d0_6) in
      if window_found searchText word minSubstringLength
           (Z.of_nat wordLength - floor_mul wordLength d0_4)
      then true
      else similar_word searchText word
    else false.

Definition hasMatch (searchText : jsstring) (searchWords : list jsstring)
    : bool :=
  existsb (word_hasMatch searchText) searchWords.

Definition matchedWords (searchText : jsstring) (searchWords : list jsstring)
    : list jsstring :=
  List.filter (word_matched searchText) searchWords.

(** [`${title} ${description}`] of the filter callback. *)
Definition searchText `{ToLowerCase} (p : product) : jsstring :=
  let title := toLowerCase (p_title p) in
  let description :=
    match p_description p with
    | Some (c :: d) => toLowerCase (c :: d)
    | _ => []
    end in
  title ++ [space] ++ description.

Definition filterProductsWithFuzzy `{ToLowerCase}
    (products : jsarg product) (searchWords : jsarg jsstring)
    : list product :=
  match products with
  | NotArray => []
  | JsArray products =>
      match searchWords with
      | NotArray | JsArray [] => take 20 products
      | JsArray searchWords =>
          List.filter (fun p => hasMatch (searchText p) searchWords) products
      end
  end.

(** The tokens the webhook handler passes on:
    [text.toLowerCase().split(' ').filter(word => word.length > 2)]. *)
Definition webhook_words `{ToLowerCase} (correctedText : jsstring)
    : list jsstring :=
  List.filter (fun word => 2 <? length word)
    (split space (toLowerCase correctedText)).

End Matcher.
Import Matcher.

(** ** Response formatter *)

Module Formatter.

Definition gem : jsstring := [0xD83D; 0xDC8E]%N.
Definition frame : jsstring := [0xD83D; 0xDDBC; 0xFE0F]%N.
Definition bullet : jsstring := [0x2022]%N.

Definition call_to_action : jsstring :=
  js "Would you like more details about any of these products, or shall I help you with something else?".

Definition not_found (searchWords : jsarg jsstring) : jsstring :=
  let searchText :=
    match searchWords with
    | JsArray ws => join (js ", ") ws
    | NotArray => js "your search"
    end in
  js "I couldn't find any products matching " ++ [34%N] ++ searchText
    ++ [34%N]
    ++ js ". Please try different keywords or ask me to show you our available gemstone beads and jewelry supplies.".

Definition truthy (s : option jsstring) : bool :=
  match s with
  | Some (_ :: _) => true
  | _ => false
  end.

Definition or_default (s : option jsstring) (default : jsstring) : jsstring :=
  match s with
  | Some (c :: s') => c :: s'
  | _ => default
  end.

(** The text one variant adds to [response]. *)
Definition variant_line (v : variant) : jsstring :=
  let price :=
    if price_truthy (v_price v) then js "$" ++ price_toFixed2 (v_price v)
    else js "Price on request" in
  let inventory :=
    if (0 <? v_inventory_quantity v)%Z
    then js "(In Stock - "
           ++ nat_toString (Z.to_nat (v_inventory_quantity v)) ++ js " left)"
    else js "(Out of Stock)" in
  js "   " ++ bullet ++ js " " ++ or_default (v_title v) (js "Standard")
    ++ js ": " ++ price ++ js " " ++ inventory ++ [LF].

(** The body of [products.slice(0, 20).forEach]: [response] before and
    after one product. *)
Definition add_product (response : jsstring) (p : product) : jsstring :=
  let response := response ++ gem ++ js " " ++ p_title p ++ [LF] in
  let response :=
    if truthy (p_image p)
    then response ++ frame ++ js " " ++ or_default (p_image p) [] ++ [LF]
    else response in
  let response :=
    match p_variants p with
    | [] => response
    | _ :: _ =>
        fold_left (fun response v => response ++ variant_line v)
          (take 3 (p_variants p)) response
    end in
  response ++ [LF].

Definition formatProductResponse (products : jsarg product)
    (searchWords : jsarg jsstring) : jsstring :=
  match products with
  | NotArray | JsArray [] => not_found searchWords
  | JsArray products =>
      let response :=
        js "Found " ++ nat_toString (length products)
          ++ js " product(s) for you:" ++ [LF; LF] in
      let response := fold_left add_product (take 20 products) response in
      let response :=
        if 20 <? length products
        then response ++ js "... and " ++ nat_toString (length products - 20)
               ++ js " more products available!" ++ [LF]
        else response in
      response ++ call_to_action
  end.

End Formatter.
Import Formatter.

(** ** Definitions used to state the properties *)

(** The recurrence the matrix cells obey, on the two prefixes read
    backwards (last character first): [dist (rev p1) (rev p2)] is the
    cell of row [length p2] and column [length p1]. *)
Fixpoint dist (r1 : list code_unit) : list code_unit -> nat :=
  fix dist_r1 (r2 : list code_unit) : nat :=
    match r1, r2 with
    | [], _ => length r2
    | _ :: _, [] => length r1
    | c1 :: r1', c2 :: r2' =>
        if code_eqb c2 c1 then dist r1' r2'
        else Nat.min (dist r1' r2' + 1)
               (Nat.min (dist r1' r2 + 1) (dist_r1 r2' + 1))
    end.

(** Row of the prefix [rev r2] of [str2], from column [length rpre] on. *)
Fixpoint row_from (rpre : list code_unit) (suffix : jsstring)
    (r2 : list code_unit) : list nat :=
  dist rpre r2 ::
  match suffix with
  | [] => []
  | c :: suffix' => row_from (c :: rpre) suffix' r2
  end.

Fixpoint rows_from (str1 : jsstring) (r2 : list code_unit)
    (suffix2 : jsstring) : list (list nat) :=
  match suffix2 with
  | [] => []
  | c :: suffix2' =>
      row_from [] str1 (c :: r2) :: rows_from str1 (c :: r2) suffix2'
  end.

(** The layout of a reply for a non-empty product list, piece by
    piece. *)
Definition header (n : nat) : jsstring :=
  js "Found " ++ nat_toString n ++ js " product(s) for you:" ++ [LF; LF].

Definition product_block (p : product) : jsstring :=
  gem ++ js " " ++ p_title p ++ [LF]
    ++ (if truthy (p_image p)
        then frame ++ js " " ++ or_default (p_image p) [] ++ [LF]
        else [])
    ++ concat (List.map variant_line (take 3 (p_variants p)))
    ++ [LF].

Definition more_suffix (n : nat) : jsstring :=
  if 20 <? n
  then js "... and " ++ nat_toString (n - 20)
         ++ js " more products available!" ++ [LF]
  else [].

(** The similarity layer in the specification's words: gated by a token
    length above 4, over the haystack split on whitespace (the
    ECMAScript white space and line terminator code units). *)
Definition is_whitespace (c : code_unit) : bool :=
  existsb (N.eqb c)
    [9; 10; 11; 12; 13; 32; 160; 0x1680; 0x2028; 0x2029; 0x202F; 0x205F;
     0x3000; 0xFEFF]%N
  || ((0x2000 <=? c) && (c <=? 0x200A))%N.

Fixpoint split_whitespace (s : jsstring) : list jsstring :=
  match s with
  | [] => [[]]
  | c :: s' =>
      if is_whitespace c then [] :: split_whitespace s'
      else match split_whitespace s' with
           | w :: ws => (c :: w) :: ws
           | [] => [[c]]
           end
  end.

Definition spec_similarity_layer (haystack token : jsstring) : bool :=
  (4 <? length token) &&
  existsb
    (fun w =>
       (3 <? length w) &&
       Qle_bool FUZZY_THRESHOLD (calculateSimilarity token w))
    (split_whitespace haystack).

(** ** Concrete inputs *)

Module Samples.

Definition item (title : string) (description : option string) : product :=
  {| p_id := []; p_title := js title;
     p_description := option_map js description;
     p_tags := None; p_image := None; p_imageAlt := None;
     p_variants := [] |}.

Definition ruby_gemstone : product := item "Ruby Gemstone" None.
Definition rubis : product := item "Rubis" None.
Definition amethyst : product := item "Amethyst Round Beads" None.
Definition garnet_beads : product := item "Garnet Beads" None.

(** A description as the shop stores it, with a line break between the
    colour label and the stone. *)
Definition garnet_strand : product :=
  {| p_id := []; p_title := js "Bead Strand";
     p_description := Some (js "Colour:" ++ [LF] ++ js "garnet");
     p_tags := None; p_image := None; p_imageAlt := None;
     p_variants := [] |}.

Definition catalog57 : list product := repeat ruby_gemstone 57.

End Samples.
Import Samples.

(** ** Edit scripts *)

(** [edit_cost n s t]: [s] is turned into [t] by a left-to-right script
    of kept characters (free) and substitutions, deletions and
    insertions (one each) of total cost [n]. *)
Inductive edit_cost : nat -> jsstring -> jsstring -> Prop :=
  | edit_done : edit_cost 0 [] []
  | edit_keep c s t n :
      edit_cost n s t -> edit_cost n (c :: s) (c :: t)
  | edit_substitute c d s t n :
      edit_cost n s t -> edit_cost (S n) (c :: s) (d :: t)
  | edit_delete c s t n :
      edit_cost n s t -> edit_cost (S n) (c :: s) t
  | edit_insert d s t n :
      edit_cost n s t -> edit_cost (S n) s (d :: t).

(** [sub] occurs in [s] as a run of consecutive code units. *)
Definition occurs_in (sub s : jsstring) : Prop :=
  exists before after, s = before ++ sub ++ after.

(** ** What the formatter shows of a product *)

(** A product cut down to the variants the formatter shows. *)
Definition shown (p : product) : product :=
  {| p_id := p_id p; p_title := p_title p;
     p_description := p_description p; p_tags := p_tags p;
     p_image := p_image p; p_imageAlt := p_imageAlt p;
     p_variants := take 3 (p_variants p) |}.

Definition same_variant_display (v v' : variant) : Prop :=
  v_title v = v_title v'
  /\ v_price v = v_price v'
  /\ v_inventory_quantity v = v_inventory_quantity v'.

Definition same_display (p p' : product) : Prop :=
  p_title p = p_title p'
  /\ p_image p = p_image p'
  /\ Forall2 same_variant_display (p_variants p) (p_variants p').

(** ** Query pipeline: catalog cache and webhook handler *)

Module Pipeline.

(** What an awaited call yields: a value, or a thrown error with its
    message. *)
Inductive outcome (A : Type) : Type :=
  | Returned (value : A)
  | Thrown (message : jsstring).
Arguments Returned {A} value.
Arguments Thrown {A} message.

Definition CACHE_DURATION : Z := 5 * 60 * 1000.

(** The module variable [mysqlCache]; [data] is [null] until the first
    successful fetch. *)
Record mysql_cache := {
  cache_data : option (list product);
  cache_timestamp : Z
}.

Definition initial_cache : mysql_cache :=
  {| cache_data := None; cache_timestamp := 0 |}.

(** [queryMySQLProducts(searchWords)] as a step on [mysqlCache].  [now]
    is the value of [Date.now()] and [fetched] is what
    [fetchAllProductsFromMySQL()] yields if it is called. *)
Definition queryMySQLProducts `{ToLowerCase} (mysqlCache : mysql_cache)
    (now : Z) (fetched : outcome (list product))
    (searchWords : jsarg jsstring) : mysql_cache * outcome jsstring :=
  let respond (products : list product) :=
    let filteredProducts :=
      filterProductsWithFuzzy (JsArray products) searchWords in
    formatProductResponse (JsArray filteredProducts) searchWords in
  let refresh :=
    match fetched with
    | Returned allProducts =>
        ({| cache_data := Some allProducts; cache_timestamp := now |},
         Returned (respond allProducts))
    | Thrown error => (mysqlCache, Thrown error)
    end in
  match cache_data mysqlCache with
  | Some data =>
      if (now - cache_timestamp mysqlCache <? CACHE_DURATION)%Z
      then (mysqlCache, Returned (respond data))
      else refresh
  | None => refresh
  end.

Record http_response := {
  status : nat;
  fulfillment_text : jsstring
}.

(** The [/webhook] handler for a request answered within its 25 second
    limit: [text] is the query text of the request body and
    [correctedText] what [preprocessWithGemini(text)] resolves to. *)
Definition webhook `{ToLowerCase} (mysqlCache : mysql_cache) (now : Z)
    (fetched : outcome (list product)) (text correctedText : jsstring)
    : mysql_cache * http_response :=
  match text with
  | [] =>
      (mysqlCache,
       {| status := 400;
          fulfillment_text :=
            js "Please tell me what products you are looking for." |})
  | _ :: _ =>
      let words := webhook_words correctedText in
      match queryMySQLProducts mysqlCache now fetched (JsArray words) with
      | (mysqlCache', Returned products) =>
          (mysqlCache', {| status := 200; fulfillment_text := products |})
      | (mysqlCache', Thrown _) =>
          (mysqlCache',
           {| status := 500;
              fulfillment_text :=
                js "Sorry, I encountered an error while searching for products. Please try again." |})
      end
  end.

(** [s.trim()]. *)
Definition trim (s : jsstring) : jsstring :=
  let trimStart := fix trimStart (s : jsstring) : jsstring :=
    match s with
    | c :: s' => if is_whitespace c then trimStart s' else s
    | [] => []
    end in
  rev (trimStart (rev (trimStart s))).

(** What the Gemini request comes to: the text of the first candidate,
    or a failure (rejected request, status not ok, or a response of
    another shape), which the function catches. *)
Inductive gemini_reply : Type :=
  | GeminiFailed
  | GeminiText (text : jsstring).

(** [preprocessWithGemini(text)] as a step on
    [gemstoneCache.correctedNames]; [hasKey] tells whether
    [GEMINI_API_KEY] is set. *)
Definition preprocessWithGemini `{ToLowerCase} (hasKey : bool)
    (correctedNames : gmap jsstring jsstring) (text : jsstring)
    (reply : gemini_reply) : gmap jsstring jsstring * jsstring :=
  if negb hasKey then (correctedNames, text)
  else
    let cacheKey := trim (toLowerCase text) in
    match correctedNames !! cacheKey with
    | Some cached => (correctedNames, cached)
    | None =>
        match reply with
        | GeminiFailed => (correctedNames, text)
        | GeminiText answer =>
            let correctedText := trim answer in
            if includes (toLowerCase correctedText)
                 (js "not gemstone related")
            then (<[cacheKey := text]> correctedNames, text)
            else (<[cacheKey := correctedText]> correctedNames, correctedText)
        end
    end.

End Pipeline.
Import Pipeline.

(** ** Reading the catalog from the database *)

Module Catalog.

(** A row of [SELECT p.id, p.title, ... FROM products p]. *)
Record product_row := {
  row_id : jsstring;
  row_title : jsstring;
  row_description : option jsstring;
  row_tags : option jsstring;
  row_image_url : option jsstring;
  row_image_alt : option jsstring
}.

(** A row of [SELECT pv.product_id, pv.title, ... FROM product_variants pv]. *)
Record variant_row := {
  vrow_product_id : jsstring;
  vrow_title : option jsstring;
  vrow_price : jsprice;
  vrow_inventory_quantity : Z;
  vrow_available_for_sale : bool
}.

Definition variant_of_row (row : variant_row) : variant :=
  {| v_title := vrow_title row;
     v_price := vrow_price row;
     v_inventory_quantity := vrow_inventory_quantity row;
     v_available_for_sale := vrow_available_for_sale row |}.

Definition product_of_row (row : product_row) (variants : list variant)
    : product :=
  {| p_id := row_id row;
     p_title := row_title row;
     p_description := row_description row;
     p_tags := row_tags row;
     p_image := row_image_url row;
     p_imageAlt := row_image_alt row;
     p_variants := variants |}.

(** The names of the members an empty object literal inherits from
    [Object.prototype] ([constructor], [toString], [__proto__], ...):
    reading them from [variantsByProduct] gives a function or an
    object, which is truthy and has no [push]. *)
Class Inherited := inherited : jsstring -> bool.

(** The [variantRows.forEach] that fills the object [variantsByProduct];
    the object's own properties are the finite map. *)
Fixpoint group_variants `{Inherited} (variantRows : list variant_row)
    (variantsByProduct : gmap jsstring (list variant))
    : outcome (gmap jsstring (list variant)) :=
  match variantRows with
  | [] => Returned variantsByProduct
  | row :: rest =>
      let id := vrow_product_id row in
      match variantsByProduct !! id with
      | Some variants =>
          group_variants rest
            (<[id := variants ++ [variant_of_row row]]> variantsByProduct)
      | None =>
          if inherited id
          then Thrown (js "variantsByProduct[variant.product_id].push is not a function")
          else group_variants rest
                 (<[id := [variant_of_row row]]> variantsByProduct)
      end
  end.

(** An element of [allProducts]: a product with its array of variants,
    or a row whose [variants] field is an inherited member instead. *)
Inductive fetched_product : Type :=
  | Product (p : product)
  | InheritedVariants (row : product_row).

(** [fetchAllProductsFromMySQL()] from the rows the two queries
    return. *)
Definition fetchAllProductsFromMySQL `{Inherited}
    (productRows : list product_row) (variantRows : list variant_row)
    : outcome (list fetched_product) :=
  match group_variants variantRows ∅ with
  | Thrown error => Thrown error
  | Returned variantsByProduct =>
      Returned
        (List.map
           (fun row =>
              match variantsByProduct !! row_id row with
              | Some variants => Product (product_of_row row variants)
              | None =>
                  if inherited (row_id row) then InheritedVariants row
                  else Product (product_of_row row [])
              end)
           productRows)
  end.

(** The variant rows of one product, in row order. *)
Definition variants_of (id : jsstring) (variantRows : list variant_row)
    : list variant :=
  List.map variant_of_row
    (List.filter (fun row => bool_decide (vrow_product_id row = id))
       variantRows).

End Catalog.
Import Catalog.

(** ** More concrete inputs *)

Module MoreSamples.

(** The members of [Object.prototype] in Node.js. *)
Definition node_inherited : Inherited :=
  fun id =>
    existsb (fun name => bool_decide (id = js name))
      ["constructor"; "__defineGetter__"; "__defineSetter__";
       "hasOwnProperty"; "__lookupGetter__"; "__lookupSetter__";
       "isPrototypeOf"; "propertyIsEnumerable"; "toString"; "valueOf";
       "__proto__"; "toLocaleString"]%string.

Definition six_mm (available : bool) : variant :=
  {| v_title := Some (js "6mm");
     v_price := {| price_truthy := true; price_toFixed2 := js "12.50" |};
     v_inventory_quantity := 5;
     v_available_for_sale := available |}.

Definition ruby_strand (id : string) (available : bool) : product :=
  {| p_id := js id; p_title := js "Ruby Strand";
     p_description := Some (js id); p_tags := None;
     p_image := None; p_imageAlt := None;
     p_variants := [six_mm available] |}.

Definition ruby_row : product_row :=
  {| row_id := js "ruby-001"; row_title := js "Ruby Gemstone";
     row_description := None; row_tags := None;
     row_image_url := None; row_image_alt := None |}.

Definition size_row (id size : string) : variant_row :=
  {| vrow_product_id := js id; vrow_title := Some (js size);
     vrow_price := {| price_truthy := true; price_toFixed2 := js "99.99" |};
     vrow_inventory_quantity := 10; vrow_available_for_sale := true |}.

(** The same title and description under another id, with a tag and
    without variants. *)
Definition retagged (p : product) : product :=
  {| p_id := js "x-1"; p_title := p_title p;
     p_description := p_description p; p_tags := Some (js "sale");
     p_image := p_image p; p_imageAlt := p_imageAlt p;
     p_variants := [] |}.

Definition warm_cache : mysql_cache :=
  {| cache_data := Some [ruby_gemstone; garnet_beads];
     cache_timestamp := 1000 |}.

End MoreSamples.
Import MoreSamples.

(** ** Saving the shop's products *)

Module Sync.

(** A variant and a product as [fetchProductsPage] builds them from the
    shop's answer. *)
Record shop_variant := {
  sv_title : option jsstring;
  sv_price : option jsstring;
  sv_inventory_quantity : option Z;
  sv_available_for_sale : bool
}.

Record shop_product := {
  sp_id : jsstring;
  sp_title : jsstring;
  sp_description : option jsstring;
  sp_tags : option (list jsstring);
  sp_image : option jsstring;
  sp_imageAlt : option jsstring;
  sp_variants : list shop_variant
}.

(** The calls [saveProductsToMySQL] makes on its connection, with the
    parameters it binds. *)
Inductive db_call : Type :=
  | BeginTransaction
  | UpsertProduct (id title : jsstring)
      (description tags image imageAlt : option jsstring)
  | DeleteVariants (product_id : jsstring)
  | InsertVariant (product_id : jsstring) (v : shop_variant)
  | Commit
  | Rollback
  | Release.

(** The database server: whether a call throws, and with which message,
    given the calls made on the connection before it. *)
Class Database := db_throws : list db_call -> db_call -> option jsstring.

(** One awaited call: it is made, and it may throw. *)
Definition await_call `{Database} (c : db_call) (done : list db_call)
    : list db_call * option jsstring :=
  (done ++ [c], db_throws done c).

(** The inner [for (const variant of product.variants)]. *)
Fixpoint insert_variants `{Database} (id : jsstring)
    (variants : list shop_variant) (done : list db_call)
    (variantsUpdated : nat) : list db_call * outcome nat :=
  match variants with
  | [] => (done, Returned variantsUpdated)
  | v :: rest =>
      match await_call (InsertVariant id v) done with
      | (done, Some error) => (done, Thrown error)
      | (done, None) => insert_variants id rest done (S variantsUpdated)
      end
  end.

Definition upsert_call (product : shop_product) : db_call :=
  UpsertProduct (sp_id product) (sp_title product) (sp_description product)
    (match sp_tags product with
     | Some tags => Some (join (js ", ") tags)
     | None => None
     end)
    (sp_image product) (sp_imageAlt product).

(** The outer [for (const product of products)]. *)
Fixpoint save_each `{Database} (products : list shop_product)
    (done : list db_call) (productsUpdated variantsUpdated : nat)
    : list db_call * outcome (nat * nat) :=
  match products with
  | [] => (done, Returned (productsUpdated, variantsUpdated))
  | product :: rest =>
      match await_call (upsert_call product) done with
      | (done, Some error) => (done, Thrown error)
      | (done, None) =>
          let productsUpdated := S productsUpdated in
          match await_call (DeleteVariants (sp_id product)) done with
          | (done, Some error) => (done, Thrown error)
          | (done, None) =>
              match insert_variants (sp_id product) (sp_variants product)
                      done variantsUpdated with
              | (done, Thrown error) => (done, Thrown error)
              | (done, Returned variantsUpdated) =>
                  save_each rest done productsUpdated variantsUpdated
              end
          end
      end
  end.

(** [saveProductsToMySQL(products)] once the pool has handed out the
    connection: the calls made on it, in order, and what the function
    returns ([productsUpdated], [variantsUpdated]) or throws. *)
Definition saveProductsToMySQL `{Database} (products : list shop_product)
    : list db_call * outcome (nat * nat) :=
  let tried :=
    match await_call BeginTransaction [] with
    | (done, Some error) => (done, Thrown error)
    | (done, None) =>
        match save_each products done 0 0 with
        | (done, Thrown error) => (done, Thrown error)
        | (done, Returned counts) =>
            match await_call Commit done with
            | (done, Some error) => (done, Thrown error)
            | (done, None) => (done, Returned counts)
            end
        end
    end in
  let caught :=
    match tried with
    | (done, Returned counts) => (done, Returned counts)
    | (done, Thrown error) =>
        match await_call Rollback done with
        | (done, Some error') => (done, Thrown error')
        | (done, None) => (done, Thrown error)
        end
    end in
  (fst caught ++ [Release], snd caught).

(** How a loop that threw [error] after the calls [done] stopped: the
    last of the calls [made] since is the one that threw. *)
Definition stopped_at `{Database} (done made : list db_call)
    (error : jsstring) : Prop :=
  exists before c,
    made = before ++ [c] /\ db_throws (done ++ before) c = Some error.

(** The calls of one product, and of a whole successful run up to the
    commit. *)
Definition product_calls (product : shop_product) : list db_call :=
  upsert_call product
    :: DeleteVariants (sp_id product)
    :: List.map (InsertVariant (sp_id product)) (sp_variants product).

Definition transaction (products : list shop_product) : list db_call :=
  BeginTransaction :: flat_map product_calls products ++ [Commit].

(** [products.reduce((total, p) => total + p.variants.length, 0)] of
    [syncShopifyToMySQL]. *)
Definition variantsCount (products : list shop_product) : nat :=
  fold_left (fun total p => total + length (sp_variants p)) products 0.

(** A server that accepts every call, and one that rejects the insert
    of a variant without a price. *)
Definition accepting : Database := fun _ _ => None.


Definition bead (id : string) (prices : list (option string)) : shop_product :=
  {| sp_id := js id; sp_title := js "Bead"; sp_description := None;
     sp_tags := Some [js "round"; js "8mm"]; sp_image := None;
     sp_imageAlt := None;
     sp_variants :=
       List.map
         (fun price =>
            {| sv_title := None; sv_price := option_map js price;
               sv_inventory_quantity := Some 3%Z;
               sv_available_for_sale := true |})
         prices |}.


Definition unpriced_beads : list shop_product :=
  [bead "b1" [Some "1.00"%string]; bead "b2" [Some "2.00"; None]%string].

End Sync.
Import Sync.

(** * Part II: properties *)

(** ** The embedding at a few known values *)

Example levenshtein_kitten_sitting :
  levenshteinDistance (js "kitten") (js "sitting") = 3.
Proof. reflexivity. Qed.

(** [Math.floor(90 * 0.7)] is 62 and [Math.floor(10 * 0.7)] is 7: the
    double product [90 * 0.7] is [62.99999999999999]. *)
Example floor_mul_known_values :
  (floor_mul 90 d0_7, floor_mul 10 d0_7, floor_mul 8 d0_6, floor_mul 8 d0_4)
  = (62, 7, 4, 3)%Z.
Proof. reflexivity. Qed.

Example split_keeps_empty_words :
  split space (js "a  b") = [js "a"; []; js "b"].
Proof. reflexivity. Qed.

Example substring_is_clamped :
  substring (js "opal") 2 5 = js "al".
Proof. reflexivity. Qed.

(** ** The matrix computes the edit-distance recurrence *)

Section LevenshteinTheory.

Lemma dist_nil_r r1 : dist r1 [] = length r1.
Proof. destruct r1; reflexivity. Qed.

Lemma dist_nil_l r2 : dist [] r2 = length r2.
Proof. destruct r2; reflexivity. Qed.

Lemma dist_cons c1 r1 c2 r2 :
  dist (c1 :: r1) (c2 :: r2) =
  if code_eqb c2 c1 then dist r1 r2
  else Nat.min (dist r1 r2 + 1)
         (Nat.min (dist r1 (c2 :: r2) + 1) (dist (c1 :: r1) r2 + 1)).
Proof. reflexivity. Qed.

Lemma fill_row_spec suffix : forall rpre r2 c2,
  fill_row c2 suffix (row_from rpre suffix r2) (dist rpre (c2 :: r2)) =
  tail (row_from rpre suffix (c2 :: r2)).
Proof.
  induction suffix as [|c1 suffix IH]; intros rpre r2 c2.
  - reflexivity.
  - cbn [row_from tail].
    specialize (IH (c1 :: rpre) r2 c2).
    destruct suffix as [|c suffix]; cbn [row_from fill_row] in *.
    + rewrite dist_cons. reflexivity.
    + rewrite <- dist_cons. rewrite IH. reflexivity.
Qed.

Lemma row_from_first_row suffix : forall rpre,
  row_from rpre suffix [] = seq (length rpre) (S (length suffix)).
Proof.
  induction suffix as [|c suffix IH]; intros rpre; cbn [row_from].
  - rewrite dist_nil_r. reflexivity.
  - rewrite IH, dist_nil_r. reflexivity.
Qed.

Lemma fill_rows_spec str1 suffix2 : forall r2,
  fill_rows str1 suffix2 (S (length r2)) (row_from [] str1 r2) =
  rows_from str1 r2 suffix2.
Proof.
  induction suffix2 as [|c2 suffix2 IH]; intros r2; cbn [fill_rows rows_from].
  - reflexivity.
  - assert (Hrow : S (length r2)
                     :: fill_row c2 str1 (row_from [] str1 r2) (S (length r2))
                   = row_from [] str1 (c2 :: r2)).
    { change (S (length r2)) with (dist [] (c2 :: r2)).
      rewrite fill_row_spec. destruct str1; reflexivity. }
    rewrite Hrow. f_equal. apply (IH (c2 :: r2)).
Qed.

Lemma nth_rows_from str1 suffix2 : forall r2 k,
  k < length suffix2 ->
  nth k (rows_from str1 r2 suffix2) [] =
  row_from [] str1 (rev (take (S k) suffix2) ++ r2).
Proof.
  induction suffix2 as [|c suffix2 IH]; intros r2 k Hk; cbn [length] in Hk.
  - lia.
  - destruct k as [|k]; cbn [rows_from nth].
    + destruct suffix2; reflexivity.
    + rewrite IH by lia.
      change (take (S (S k)) (c :: suffix2)) with (c :: take (S k) suffix2).
      cbn [rev]. rewrite <- app_assoc. reflexivity.
Qed.

Lemma nth_row_from suffix : forall rpre r2 k,
  k <= length suffix ->
  nth k (row_from rpre suffix r2) 0 = dist (rev (take k suffix) ++ rpre) r2.
Proof.
  induction suffix as [|c suffix IH]; intros rpre r2 k Hk; cbn [length] in Hk.
  - replace k with 0 by lia. reflexivity.
  - destruct k as [|k]; cbn [row_from nth].
    + reflexivity.
    + rewrite IH by lia. cbn [take rev]. rewrite <- app_assoc. reflexivity.
Qed.

(** The cell the function returns is the recurrence at the two whole
    strings. *)
Lemma levenshteinDistance_dist str1 str2 :
  levenshteinDistance str1 str2 = dist (rev str1) (rev str2).
Proof.
  unfold levenshteinDistance, matrix.
  change (seq 0 (S (length str1)))
    with (seq (length (@nil code_unit)) (S (length str1))).
  rewrite <- (row_from_first_row str1 []).
  change 1 with (S (length (@nil code_unit))).
  rewrite fill_rows_spec.
  destruct str2 as [|c2 str2'] eqn:E.
  - cbn [length nth rev]. rewrite nth_row_from by lia.
    rewrite take_ge by lia. rewrite app_nil_r. reflexivity.
  - rewrite <- E.
    assert (Hlen : length str2 = S (length str2')) by (subst; reflexivity).
    rewrite Hlen. cbn [nth]. rewrite nth_rows_from by lia.
    rewrite <- Hlen. rewrite take_ge by lia.
    rewrite nth_row_from by lia. rewrite take_ge by lia.
    rewrite !app_nil_r. reflexivity.
Qed.

Lemma code_eqb_sym c d : code_eqb c d = code_eqb d c.
Proof. apply N.eqb_sym. Qed.

Lemma dist_sym r1 : forall r2, dist r1 r2 = dist r2 r1.
Proof.
  induction r1 as [|c1 r1 IH1]; intros r2.
  - rewrite dist_nil_l, dist_nil_r. reflexivity.
  - induction r2 as [|c2 r2 IH2].
    + rewrite dist_nil_l, dist_nil_r. reflexivity.
    + rewrite !dist_cons, (code_eqb_sym c1 c2).
      rewrite IH2, (IH1 r2), (IH1 (c2 :: r2)).
      destruct (code_eqb c2 c1); lia.
Qed.

Lemma dist_le_max r1 : forall r2,
  dist r1 r2 <= Nat.max (length r1) (length r2).
Proof.
  induction r1 as [|c1 r1 IH1]; intros r2.
  - rewrite dist_nil_l. lia.
  - destruct r2 as [|c2 r2].
    + rewrite dist_nil_r. lia.
    + rewrite dist_cons. specialize (IH1 r2). cbn [length].
      destruct (code_eqb c2 c1); lia.
Qed.

Lemma levenshteinDistance_sym str1 str2 :
  levenshteinDistance str1 str2 = levenshteinDistance str2 str1.
Proof. rewrite !levenshteinDistance_dist. apply dist_sym. Qed.

Lemma levenshteinDistance_le_max str1 str2 :
  levenshteinDistance str1 str2 <= Nat.max (length str1) (length str2).
Proof.
  rewrite levenshteinDistance_dist.
  etransitivity; [apply dist_le_max|]. rewrite !length_rev. lia.
Qed.

End LevenshteinTheory.

(** ** Similarity scorer *)

Section ScorerTheory.

Lemma ratio_bounds (L d : Z) :
  (0 < L)%Z -> (0 <= d <= L)%Z ->
  (0 <= inject_Z (L - d) / inject_Z L <= 1)%Q.
Proof.
  intros HL Hd.
  assert (HLq : (0 < inject_Z L)%Q).
  { change 0%Q with (inject_Z 0). rewrite <- Zlt_Qlt. exact HL. }
  split.
  - apply Qle_shift_div_l; [exact HLq|].
    rewrite Qmult_0_l. change 0%Q with (inject_Z 0).
    rewrite <- Zle_Qle. lia.
  - apply Qle_shift_div_r; [exact HLq|].
    rewrite Qmult_1_l. rewrite <- Zle_Qle. lia.
Qed.

Lemma similarity_of_longer (longer shorter : jsstring) :
  length shorter <= length longer ->
  length longer <> 0 ->
  (0 <= inject_Z (Z.of_nat (length longer)
                  - Z.of_nat (levenshteinDistance longer shorter))
        / inject_Z (Z.of_nat (length longer)) <= 1)%Q.
Proof.
  intros Hle Hne. apply ratio_bounds; [lia|].
  pose proof (levenshteinDistance_le_max longer shorter). lia.
Qed.

(** C6. For all strings [a] and [b], [calculateSimilarity a b] lies in
    the closed interval from 0 to 1; it is 1 when the longer length
    [max (length a) (length b)] is 0 and otherwise equals
    [(max - levenshteinDistance a b) / max]; in particular the score of
    two empty strings is exactly 1. *)
Theorem calculateSimilarity_unit_interval (a b : jsstring) :
  (0 <= calculateSimilarity a b <= 1)%Q /\
  calculateSimilarity a b =
    (let m := Nat.max (length a) (length b) in
     if m =? 0 then 1%Q
     else (inject_Z (Z.of_nat m - Z.of_nat (levenshteinDistance a b))
             / inject_Z (Z.of_nat m))%Q) /\
  calculateSimilarity [] [] = 1%Q.
Proof.
  split; [|split; [|reflexivity]].
  - unfold calculateSimilarity.
    destruct (Nat.ltb_spec (length b) (length a)) as [Hlt|Hge].
    + destruct (Nat.eqb_spec (length a) 0) as [H0|H0].
      * split; [apply Qle_bool_imp_le; reflexivity|apply Qle_refl].
      * apply similarity_of_longer; lia.
    + destruct (Nat.eqb_spec (length b) 0) as [H0|H0].
      * split; [apply Qle_bool_imp_le; reflexivity|apply Qle_refl].
      * apply similarity_of_longer; lia.
  - unfold calculateSimilarity. cbv zeta.
    destruct (Nat.ltb_spec (length b) (length a)) as [Hlt|Hge].
    + replace (Nat.max (length a) (length b)) with (length a) by lia.
      reflexivity.
    + replace (Nat.max (length a) (length b)) with (length b) by lia.
      rewrite (levenshteinDistance_sym b a). reflexivity.
Qed.

End ScorerTheory.

(** ** Filter *)

Section FilterTheory.

Context `{ToLowerCase}.

Lemma filter_sublist {A} (f : A -> bool) (l : list A) :
  List.filter f l `sublist_of` l.
Proof.
  induction l as [|x l IH]; cbn [List.filter].
  - constructor.
  - destruct (f x); constructor; exact IH.
Qed.

Lemma filter_nonempty products (w : jsstring) ws :
  filterProductsWithFuzzy (JsArray products) (JsArray (w :: ws)) =
  List.filter (fun p => hasMatch (searchText p) (w :: ws)) products.
Proof. reflexivity. Qed.

Lemma filter_tokens_nonempty products (searchWords : list jsstring) :
  searchWords <> [] ->
  filterProductsWithFuzzy (JsArray products) (JsArray searchWords) =
  List.filter (fun p => hasMatch (searchText p) searchWords) products.
Proof. destruct searchWords; [congruence|reflexivity]. Qed.

Lemma word_hasMatch_exact searchText word :
  includes searchText word = true -> word_hasMatch searchText word = true.
Proof. intros Hin. unfold word_hasMatch. rewrite Hin. reflexivity. Qed.

Lemma word_hasMatch_short searchText word :
  length word <= 5 ->
  word_hasMatch searchText word = includes searchText word.
Proof.
  intros Hlen. unfold word_hasMatch.
  destruct (includes searchText word); [reflexivity|].
  destruct (Nat.ltb_spec 5 (length word)); [lia|reflexivity].
Qed.

Lemma hasMatch_In searchText searchWords word :
  In word searchWords -> word_hasMatch searchText word = true ->
  hasMatch searchText searchWords = true.
Proof.
  intros Hin Hw. unfold hasMatch. apply existsb_exists. eauto.
Qed.

Lemma kept_by_filter products searchWords p :
  searchWords <> [] -> In p products ->
  hasMatch (searchText p) searchWords = true ->
  In p (filterProductsWithFuzzy (JsArray products) (JsArray searchWords)).
Proof.
  intros Hne Hin Hm. rewrite filter_tokens_nonempty by exact Hne.
  apply filter_In. auto.
Qed.

(** C3. For every product of the catalog and every non-empty token
    list, if the haystack (lowercased title, a space, lowercased
    description) contains some token verbatim, the product is in the
    output of [filterProductsWithFuzzy]; no other layer and no threshold
    is consulted. *)
Theorem exact_substring_sufficient products searchWords p :
  searchWords <> [] ->
  In p products ->
  (exists word, In word searchWords /\ includes (searchText p) word = true) ->
  In p (filterProductsWithFuzzy (JsArray products) (JsArray searchWords)).
Proof.
  intros Hne Hin (word & Hw & Hinc).
  apply kept_by_filter; [exact Hne|exact Hin|].
  apply (hasMatch_In _ _ word Hw), word_hasMatch_exact, Hinc.
Qed.

(** C4. For every product list and every token argument, the output of
    [filterProductsWithFuzzy] is a subsequence of the input list: the
    products it keeps are products of the input, in their input
    order. *)
Theorem filter_is_subsequence products (searchWords : jsarg jsstring) :
  filterProductsWithFuzzy (JsArray products) searchWords `sublist_of` products.
Proof.
  unfold filterProductsWithFuzzy.
  destruct searchWords as [|[|w ws]].
  - apply sublist_take.
  - apply sublist_take.
  - apply filter_sublist.
Qed.

(** C5. For every product list, with an empty token list
    [filterProductsWithFuzzy] returns the first 20 products of the input
    in their order, all of them when there are fewer than 20; the
    matcher is not run. *)
Theorem empty_tokens_first_twenty products :
  filterProductsWithFuzzy (JsArray products) (JsArray []) = take 20 products
  /\ length (filterProductsWithFuzzy (JsArray products) (JsArray []))
     = Nat.min 20 (length products)
  /\ filterProductsWithFuzzy (JsArray products) (JsArray [])
       `prefix_of` products.
Proof.
  cbn [filterProductsWithFuzzy]. split; [reflexivity|split].
  - rewrite length_take. reflexivity.
  - apply prefix_take.
Qed.

(** C9. When the products argument is not an array,
    [filterProductsWithFuzzy] returns the empty list, whatever the token
    argument is. *)
Theorem not_array_gives_empty (searchWords : jsarg jsstring) :
  filterProductsWithFuzzy NotArray searchWords = [].
Proof. reflexivity. Qed.

Lemma hasMatch_app searchText ws1 ws2 :
  hasMatch searchText (ws1 ++ ws2) =
  hasMatch searchText ws1 || hasMatch searchText ws2.
Proof. apply existsb_app. Qed.

(** C2, as the code has it. For every product list and every non-empty
    token list, appending a token of at most 2 characters keeps the
    products kept before and adds exactly those whose haystack contains
    the token verbatim. *)
Theorem short_token_adds_exact_matches products searchWords token :
  searchWords <> [] ->
  length token <= 2 ->
  filterProductsWithFuzzy (JsArray products) (JsArray (searchWords ++ [token]))
  = List.filter
      (fun p => hasMatch (searchText p) searchWords
                || includes (searchText p) token)
      products.
Proof.
  intros Hne Hlen.
  rewrite filter_tokens_nonempty by (destruct searchWords; discriminate).
  apply filter_ext. intros p. rewrite hasMatch_app. f_equal.
  cbn [hasMatch existsb]. rewrite orb_false_r.
  apply word_hasMatch_short. lia.
Qed.

(** The length filter the specification speaks of is the caller's: the
    webhook handler passes on only tokens longer than 2 characters. *)
Lemma webhook_words_long correctedText word :
  In word (webhook_words correctedText) -> 2 < length word.
Proof.
  unfold webhook_words. intros Hin.
  apply filter_In in Hin as [_ Hlen]. apply Nat.ltb_lt, Hlen.
Qed.

End FilterTheory.

(** ** Rounding to double precision is monotone *)

Section DoubleTheory.

Local Open Scope Z_scope.

Lemma round53_small n : Z.log2 n - 52 <= 0 -> round53 n = n.
Proof.
  intros Hs. unfold round53.
  destruct (Z.leb_spec (Z.log2 n - 52) 0); [reflexivity|lia].
Qed.

Lemma scale_quotient n s :
  s = Z.log2 n - 52 -> 0 < s ->
  2 ^ 52 <= n / 2 ^ s < 2 ^ 53.
Proof.
  intros Hs Hpos.
  assert (Hn : 0 < n).
  { destruct (Z.lt_trichotomy n 0) as [Hneg|[H0|Hgt]]; [|subst n|exact Hgt].
    - rewrite Z.log2_nonpos in Hs by lia. lia.
    - cbn in Hs. lia. }
  pose proof (Z.log2_spec n Hn) as [Hlo Hhi].
  assert (HP : 0 < 2 ^ s) by (apply Z.pow_pos_nonneg; lia).
  replace (Z.log2 n) with (52 + s) in Hlo by lia.
  replace (Z.succ (Z.log2 n)) with (53 + s) in Hhi by lia.
  rewrite Z.pow_add_r in Hlo, Hhi by lia.
  split.
  - apply Z.div_le_lower_bound; [exact HP|]. lia.
  - apply Z.div_lt_upper_bound; [exact HP|]. lia.
Qed.

Lemma round53_between n s :
  s = Z.log2 n - 52 -> 0 < s ->
  n / 2 ^ s * 2 ^ s <= round53 n <= (n / 2 ^ s + 1) * 2 ^ s.
Proof.
  intros Hs Hpos. unfold round53. rewrite <- Hs.
  assert (HP : 0 < 2 ^ s) by (apply Z.pow_pos_nonneg; lia).
  destruct (Z.leb_spec s 0); [lia|].
  destruct (_ || _); nia.
Qed.

Lemma round53_scaled_bounds n s :
  s = Z.log2 n - 52 -> 0 < s ->
  2 ^ 52 * 2 ^ s <= round53 n <= 2 ^ 53 * 2 ^ s.
Proof.
  intros Hs Hpos.
  pose proof (round53_between n s Hs Hpos).
  pose proof (scale_quotient n s Hs Hpos).
  assert (HP : 0 < 2 ^ s) by (apply Z.pow_pos_nonneg; lia).
  nia.
Qed.

Lemma round53_same_scale n n' s :
  s = Z.log2 n - 52 -> s = Z.log2 n' - 52 -> 0 < s -> n <= n' ->
  round53 n <= round53 n'.
Proof.
  intros Hs Hs' Hpos Hle.
  assert (HP : 0 < 2 ^ s) by (apply Z.pow_pos_nonneg; lia).
  assert (Hq : n / 2 ^ s <= n' / 2 ^ s) by (apply Z.div_le_mono; lia).
  destruct (Z.eq_dec (n / 2 ^ s) (n' / 2 ^ s)) as [Heq|Hne].
  - assert (Hr : n mod 2 ^ s <= n' mod 2 ^ s).
    { rewrite !Z.mod_eq by lia. rewrite Heq. lia. }
    unfold round53. rewrite <- Hs, <- Hs'.
    destruct (Z.leb_spec s 0); [lia|].
    rewrite <- Heq.
    set (q := n / 2 ^ s) in *. set (half := 2 ^ (s - 1)).
    destruct (Z.ltb_spec half (n mod 2 ^ s)) as [Hup|Hdown]; cbn [orb].
    + destruct (Z.ltb_spec half (n' mod 2 ^ s)); [cbn [orb]; lia|lia].
    + destruct (Z.eqb_spec (n mod 2 ^ s) half) as [Hhalf|Hnhalf]; cbn [andb].
      * destruct (Z.odd q) eqn:Hodd.
        -- destruct (Z.ltb_spec half (n' mod 2 ^ s)); cbn [orb]; [lia|].
           destruct (Z.eqb_spec (n' mod 2 ^ s) half); cbn [andb]; lia.
        -- destruct (_ || _); nia.
      * destruct (_ || _); nia.
  - pose proof (round53_between n s Hs Hpos).
    pose proof (round53_between n' s Hs' Hpos).
    nia.
Qed.

Lemma round53_mono n n' : 0 <= n <= n' -> round53 n <= round53 n'.
Proof.
  intros [Hn Hle].
  pose proof (Z.log2_le_mono n n' Hle) as Hlog.
  destruct (Z.le_gt_cases (Z.log2 n - 52) 0) as [Hs|Hs].
  - rewrite (round53_small n Hs).
    destruct (Z.le_gt_cases (Z.log2 n' - 52) 0) as [Hs'|Hs'].
    + rewrite (round53_small n' Hs'). exact Hle.
    + pose proof (round53_scaled_bounds n' _ eq_refl Hs') as [Hlo _].
      assert (H2 : 2 ^ 1 <= 2 ^ (Z.log2 n' - 52))
        by (apply Z.pow_le_mono_r; lia).
      assert (Hn53 : n < 2 ^ 53).
      { destruct (Z.eq_dec n 0) as [->|Hn0]; [reflexivity|].
        pose proof (Z.log2_spec n ltac:(lia)) as [_ Hhi].
        eapply Z.lt_le_trans; [exact Hhi|].
        apply Z.pow_le_mono_r; lia. }
      change (2 ^ 1) with 2 in H2. change (2 ^ 53) with (2 ^ 52 * 2) in Hn53.
      nia.
  - destruct (Z.eq_dec (Z.log2 n) (Z.log2 n')) as [Heq|Hne].
    + apply (round53_same_scale n n' (Z.log2 n - 52)); lia.
    + pose proof (round53_scaled_bounds n _ eq_refl Hs) as [_ Hhi].
      pose proof (round53_scaled_bounds n' _ eq_refl ltac:(lia)) as [Hlo _].
      assert (Hpow : 2 ^ 53 * 2 ^ (Z.log2 n - 52)
                     <= 2 ^ 52 * 2 ^ (Z.log2 n' - 52)).
      { rewrite <- !Z.pow_add_r by lia. apply Z.pow_le_mono_r; lia. }
      lia.
Qed.

Lemma floor_mul_mono (n : nat) c c' :
  0 <= c <= c' -> floor_mul n c <= floor_mul n c'.
Proof.
  intros Hc. unfold floor_mul.
  apply Z.div_le_mono; [reflexivity|].
  apply round53_mono. nia.
Qed.

Lemma floor_06_le_07 n : floor_mul n d0_6 <= floor_mul n d0_7.
Proof. apply floor_mul_mono. unfold d0_6, d0_7. lia. Qed.

Lemma floor_04_le_07 n : floor_mul n d0_4 <= floor_mul n d0_7.
Proof. apply floor_mul_mono. unfold d0_4, d0_7. lia. Qed.

End DoubleTheory.

(** ** Matcher: the two passes *)

Section MatcherTheory.

Lemma startsWith_take needle : forall s k,
  startsWith s needle = true -> startsWith s (take k needle) = true.
Proof.
  induction needle as [|c needle IH]; intros s k Hs.
  - rewrite take_nil. reflexivity.
  - destruct k as [|k]; [reflexivity|].
    destruct s as [|d s]; [discriminate|].
    cbn [take startsWith] in *.
    apply andb_true_iff in Hs as [Hc Hs].
    rewrite Hc. cbn [andb]. apply IH, Hs.
Qed.

(** A text that includes a string includes each of its prefixes. *)
Lemma includes_take s : forall needle k,
  includes s needle = true -> includes s (take k needle) = true.
Proof.
  induction s as [|d s IH]; intros needle k Hinc; cbn [includes] in *.
  - rewrite orb_false_r in *. apply startsWith_take, Hinc.
  - apply orb_true_iff in Hinc as [Hst|Hrest]; apply orb_true_iff.
    + left. apply startsWith_take, Hst.
    + right. apply IH, Hrest.
Qed.

Lemma substring_window (word : jsstring) i len :
  substring word i (i + len) = take len (drop i word).
Proof.
  unfold substring.
  replace (Nat.min i (i + len)) with i by lia.
  replace (Nat.max i (i + len) - i) with len by lia.
  reflexivity.
Qed.

Lemma includes_shorter_window searchText word i len len' :
  len' <= len ->
  includes searchText (substring word i (i + len)) = true ->
  includes searchText (substring word i (i + len')) = true.
Proof.
  intros Hle Hinc. rewrite substring_window in *.
  replace (take len' (drop i word))
    with (take len' (take len (drop i word))).
  - apply includes_take, Hinc.
  - rewrite take_take. f_equal. lia.
Qed.

(** A window the decision pass finds is found, shortened, by any pass
    whose windows are no longer and whose index range is no smaller. *)
Lemma window_found_weaken searchText word len last len' last' :
  (0 <= len' <= len)%Z -> (last <= last')%Z ->
  window_found searchText word len last = true ->
  window_found searchText word len' last' = true.
Proof.
  intros Hlen Hlast Hfound. unfold window_found in *.
  apply existsb_exists in Hfound as (i & Hi & Hinc).
  apply existsb_exists. exists i. split.
  - apply in_seq in Hi. apply in_seq. lia.
  - apply (includes_shorter_window _ _ _ (Z.to_nat len)); [lia|exact Hinc].
Qed.

Lemma word_hasMatch_matched searchText word :
  word_hasMatch searchText word = true ->
  word_matched searchText word = true.
Proof.
  unfold word_hasMatch, word_matched.
  destruct (includes searchText word); [reflexivity|].
  destruct (Nat.ltb_spec 5 (length word)) as [H5|H5]; [|discriminate].
  destruct (Nat.ltb_spec 3 (length word)) as [H3|H3]; [|lia].
  destruct (window_found searchText word (Z.max 5 _) _) eqn:Hwin.
  - intros _.
    pose proof (floor_06_le_07 (length word)).
    pose proof (floor_04_le_07 (length word)).
    apply (window_found_weaken _ _ _ _
             (Z.max 3 (floor_mul (length word) d0_6))
             (Z.of_nat (length word) - floor_mul (length word) d0_4))
      in Hwin; [rewrite Hwin; reflexivity|lia|lia].
  - destruct (Nat.ltb_spec 4 (length word)) as [H4|H4]; [|discriminate].
    intros Hsim. rewrite Hsim. clear Hwin.
    destruct (window_found _ _ _ _); reflexivity.
Qed.

(** C10. For every haystack and token list, whenever the match decision
    [hasMatch] is true the recomputed [matchedWords] list is not empty:
    a token that passes a decision layer (verbatim inclusion; a window of
    length [max 5 (floor (0.7 * len))] for [len > 5]; a similarity of at
    least 0.6 with a haystack word longer than 3) also passes the
    diagnostic layers (windows of length [max 3 (floor (0.6 * len))] for
    [len > 3]; the same similarity test). *)
Theorem diagnostic_pass_at_least_as_lenient searchText searchWords :
  hasMatch searchText searchWords = true ->
  matchedWords searchText searchWords <> [].
Proof.
  unfold hasMatch, matchedWords. intros Hm.
  apply existsb_exists in Hm as (word & Hin & Hw).
  apply word_hasMatch_matched in Hw.
  assert (Hf : In word (List.filter (word_matched searchText) searchWords))
    by (apply filter_In; auto).
  intros Hnil. rewrite Hnil in Hf. exact Hf.
Qed.

Lemma similar_word_intro searchText word searchWord :
  In searchWord (split space searchText) ->
  3 < length searchWord ->
  (FUZZY_THRESHOLD <= calculateSimilarity word searchWord)%Q ->
  similar_word searchText word = true.
Proof.
  intros Hin Hlen Hsim. unfold similar_word.
  apply existsb_exists. exists searchWord. split; [exact Hin|].
  apply andb_true_iff. split.
  - apply Nat.ltb_lt, Hlen.
  - apply Qle_bool_iff, Hsim.
Qed.

Lemma word_hasMatch_similar searchText word :
  5 < length word ->
  similar_word searchText word = true ->
  word_hasMatch searchText word = true.
Proof.
  intros Hlen Hsim. unfold word_hasMatch.
  destruct (includes searchText word); [reflexivity|].
  destruct (Nat.ltb_spec 5 (length word)); [|lia].
  destruct (window_found _ _ _ _); [reflexivity|].
  destruct (Nat.ltb_spec 4 (length word)); [exact Hsim|lia].
Qed.

End MatcherTheory.

Section SimilarityLayer.

Context `{ToLowerCase}.

(** C1, as the code has it. For every product of the catalog and every
    token of the list whose length is greater than 5: when the haystack,
    split at its space characters, has a word longer than 3 characters
    whose [calculateSimilarity] with the token is at least 0.6, the
    product is in the output of [filterProductsWithFuzzy]. *)
Theorem similarity_layer_long_token products searchWords p word searchWord :
  In p products ->
  In word searchWords ->
  5 < length word ->
  In searchWord (split space (searchText p)) ->
  3 < length searchWord ->
  (FUZZY_THRESHOLD <= calculateSimilarity word searchWord)%Q ->
  In p (filterProductsWithFuzzy (JsArray products) (JsArray searchWords)).
Proof.
  intros Hp Hw Hlen Hsw Hlen' Hsim.
  apply kept_by_filter; [intros ->; exact Hw|exact Hp|].
  apply (hasMatch_In _ _ word Hw), word_hasMatch_similar; [exact Hlen|].
  apply (similar_word_intro _ _ searchWord); assumption.
Qed.

End SimilarityLayer.

(** ** Formatter *)

Section FormatterTheory.

Lemma fold_variant_lines vs : forall response,
  fold_left (fun response v => response ++ variant_line v) vs response
  = response ++ concat (List.map variant_line vs).
Proof.
  induction vs as [|v vs IH]; intros response; cbn [fold_left List.map concat].
  - rewrite app_nil_r. reflexivity.
  - rewrite IH, <- app_assoc. reflexivity.
Qed.

Lemma add_product_block response p :
  add_product response p = response ++ product_block p.
Proof.
  unfold add_product, product_block.
  assert (Hv : forall r,
    match p_variants p with
    | [] => r
    | _ :: _ =>
        fold_left (fun response v => response ++ variant_line v)
          (take 3 (p_variants p)) r
    end = r ++ concat (List.map variant_line (take 3 (p_variants p)))).
  { intros r. destruct (p_variants p) as [|v vs] eqn:E.
    - cbn. rewrite app_nil_r. reflexivity.
    - apply fold_variant_lines. }
  rewrite Hv. destruct (truthy (p_image p)).
  - repeat rewrite <- app_assoc. reflexivity.
  - cbn [app]. repeat rewrite <- app_assoc. reflexivity.
Qed.

Lemma fold_product_blocks ps : forall response,
  fold_left add_product ps response
  = response ++ concat (List.map product_block ps).
Proof.
  induction ps as [|p ps IH]; intros response; cbn [fold_left List.map concat].
  - rewrite app_nil_r. reflexivity.
  - rewrite IH, add_product_block, <- app_assoc. reflexivity.
Qed.

(** C7. For every non-empty list of N products the reply is the header
    reporting N, then one block for each of the first 20 products only,
    each block holding the lines of at most the first 3 variants of its
    product, then, when N > 20, the line reporting N - 20 more products,
    then the closing sentence; for N = 57 that line reports 37. *)
Theorem format_caps_display products searchWords :
  products <> [] ->
  formatProductResponse (JsArray products) searchWords
  = header (length products)
      ++ concat (List.map product_block (take 20 products))
      ++ more_suffix (length products)
      ++ call_to_action
  /\ more_suffix 57 = js "... and 37 more products available!" ++ [LF].
Proof.
  intros Hne. split; [|reflexivity].
  destruct products as [|p ps]; [congruence|].
  unfold formatProductResponse, header, more_suffix.
  rewrite fold_product_blocks.
  destruct (20 <? length (p :: ps)); repeat rewrite <- app_assoc; reflexivity.
Qed.

Lemma not_found_last (searchWords : jsarg jsstring) :
  exists text, not_found searchWords = text ++ [46%N].
Proof.
  unfold not_found.
  set (tail := js ". Please try different keywords or ask me to show you our available gemstone beads and jewelry supplies.").
  assert (Htail : tail = removelast tail ++ [46%N]) by reflexivity.
  rewrite Htail. eexists. rewrite !app_assoc. reflexivity.
Qed.

Lemma not_found_other_ending (searchWords : jsarg jsstring) :
  ~ call_to_action `suffix_of` not_found searchWords.
Proof.
  intros [k Hk]. destruct (not_found_last searchWords) as [text Htext].
  rewrite Htext in Hk.
  assert (Hcta : call_to_action = removelast call_to_action ++ [63%N])
    by reflexivity.
  rewrite Hcta, app_assoc in Hk.
  apply app_inj_tail in Hk as [_ Hk]. discriminate.
Qed.

(** C8, as the code has it. For every non-empty product list and every
    token argument the reply ends with the closing sentence; for an
    empty product list, or an argument that is not an array, the reply
    is the not-found message, which does not end with it. *)
Theorem call_to_action_when_products_found products searchWords :
  products <> [] ->
  call_to_action `suffix_of` formatProductResponse (JsArray products) searchWords
  /\ formatProductResponse (JsArray []) searchWords = not_found searchWords
  /\ formatProductResponse NotArray searchWords = not_found searchWords
  /\ ~ call_to_action `suffix_of` not_found searchWords.
Proof.
  intros Hne. split; [|split; [reflexivity|split; [reflexivity|]]].
  - destruct products as [|p ps]; [congruence|].
    unfold formatProductResponse. eexists. reflexivity.
  - apply not_found_other_ending.
Qed.

End FormatterTheory.

(** ** The properties at concrete inputs *)

Section Concrete.

Local Existing Instance asciiLower.

(** A token of 5 characters never reaches the similarity layer, and a
    haystack word that follows a line break is not a word of
    [split(' ')]: in both cases the layer as the specification words it
    accepts the product and the filter drops it. *)
Lemma similarity_layer_counterexample :
  (4 < length (js "rubie")
   /\ spec_similarity_layer (searchText rubis) (js "rubie") = true
   /\ filterProductsWithFuzzy (JsArray [rubis]) (JsArray [js "rubie"]) = [])
  /\
  (4 < length (js "garnit")
   /\ spec_similarity_layer (searchText garnet_strand) (js "garnit") = true
   /\ filterProductsWithFuzzy (JsArray [garnet_strand]) (JsArray [js "garnit"])
      = []).
Proof.
  repeat split; try (cbn; lia); vm_compute; reflexivity.
Qed.

Lemma similarity_layer_long_token_witness :
  In garnet_beads
    (filterProductsWithFuzzy (JsArray [garnet_beads]) (JsArray [js "garnit"])).
Proof.
  apply (similarity_layer_long_token _ _ _ (js "garnit") (js "garnet")).
  - left. reflexivity.
  - left. reflexivity.
  - cbn. lia.
  - left. reflexivity.
  - cbn. lia.
  - apply Qle_bool_iff. vm_compute. reflexivity.
Defined.

(** Appending the 2-character token "ru" to the token list changes the
    output. *)
Lemma short_token_counterexample :
  length (js "ru") <= 2
  /\ filterProductsWithFuzzy (JsArray [ruby_gemstone])
       (JsArray ([js "zircon"] ++ [js "ru"]))
     <> filterProductsWithFuzzy (JsArray [ruby_gemstone])
          (JsArray [js "zircon"]).
Proof.
  split; [cbn; lia|]. vm_compute. discriminate.
Qed.

Lemma short_token_adds_exact_matches_witness :
  filterProductsWithFuzzy (JsArray [ruby_gemstone; garnet_beads])
    (JsArray ([js "garnet"] ++ [js "ru"]))
  = List.filter
      (fun p => hasMatch (searchText p) [js "garnet"]
                || includes (searchText p) (js "ru"))
      [ruby_gemstone; garnet_beads].
Proof.
  apply short_token_adds_exact_matches; [discriminate|cbn; lia].
Defined.

Lemma exact_substring_sufficient_witness :
  In ruby_gemstone
    (filterProductsWithFuzzy (JsArray [garnet_beads; ruby_gemstone])
       (JsArray [js "ruby"])).
Proof.
  apply exact_substring_sufficient.
  - discriminate.
  - right. left. reflexivity.
  - exists (js "ruby"). split; [left; reflexivity|reflexivity].
Defined.

Lemma diagnostic_pass_witness :
  matchedWords (searchText amethyst) [js "amethist"] <> [].
Proof.
  apply diagnostic_pass_at_least_as_lenient. reflexivity.
Defined.

Lemma format_caps_display_witness :
  formatProductResponse (JsArray catalog57) (JsArray [js "ruby"])
  = header 57
      ++ concat (List.map product_block (take 20 catalog57))
      ++ (js "... and 37 more products available!" ++ [LF])
      ++ call_to_action.
Proof.
  apply (format_caps_display catalog57 (JsArray [js "ruby"])). discriminate.
Defined.

(** With no product found the reply is the apology, which does not end
    with the closing sentence. *)
Lemma call_to_action_counterexample :
  ~ call_to_action
      `suffix_of` formatProductResponse (JsArray []) (JsArray [js "ruby"]).
Proof.
  intros Hs. apply (bool_decide_eq_true_2 _) in Hs.
  vm_compute in Hs. discriminate.
Qed.

Lemma call_to_action_witness :
  call_to_action
    `suffix_of` formatProductResponse (JsArray [ruby_gemstone])
                  (JsArray [js "ruby"]).
Proof.
  apply (call_to_action_when_products_found [ruby_gemstone]). discriminate.
Defined.

End Concrete.

(** * Part III: further properties of the search core *)

(** ** The distance is the cost of a cheapest edit script *)

Section EditScripts.

Lemma edit_cost_refl s : edit_cost 0 s s.
Proof. induction s; constructor; assumption. Qed.

Lemma edit_cost_zero n s t : edit_cost n s t -> n = 0 -> s = t.
Proof.
  induction 1; intros Hn; try discriminate.
  - reflexivity.
  - f_equal. auto.
Qed.

Lemma edit_cost_length n s t :
  edit_cost n s t -> length s <= length t + n /\ length t <= length s + n.
Proof. induction 1; cbn [length]; lia. Qed.

(** The recurrence changes by at most one when a character is added to
    or removed from one side. *)
Lemma dist_step_bounds k : forall s t c,
  length s + length t <= k ->
  dist (c :: s) t <= dist s t + 1 /\ dist s t <= dist (c :: s) t + 1.
Proof.
  induction k as [|k IH]; intros s t c Hk.
  - destruct s; [|cbn in Hk; lia]. destruct t; [|cbn in Hk; lia].
    cbn. lia.
  - destruct t as [|d t].
    + rewrite !dist_nil_r. cbn [length]. lia.
    + cbn [length] in Hk.
      assert (Hins : dist s (d :: t) <= dist s t + 1).
      { rewrite (dist_sym s (d :: t)), (dist_sym s t).
        apply (IH t s d). lia. }
      assert (Hdel : dist s t <= dist s (d :: t) + 1).
      { rewrite (dist_sym s (d :: t)), (dist_sym s t).
        apply (IH t s d). lia. }
      destruct (IH s t c ltac:(lia)) as [H1 H2].
      rewrite dist_cons. destruct (code_eqb d c); lia.
Qed.

Lemma dist_delete_le s t c : dist (c :: s) t <= dist s t + 1.
Proof. apply (dist_step_bounds (length s + length t)). lia. Qed.

Lemma dist_insert_le s t d : dist s (d :: t) <= dist s t + 1.
Proof. rewrite (dist_sym s (d :: t)), (dist_sym s t). apply dist_delete_le. Qed.

Lemma code_eqb_refl c : code_eqb c c = true.
Proof. apply N.eqb_refl. Qed.

Lemma code_eqb_eq c d : code_eqb c d = true -> c = d.
Proof. apply N.eqb_eq. Qed.

Lemma dist_le_edit_cost n s t : edit_cost n s t -> dist s t <= n.
Proof.
  induction 1.
  - reflexivity.
  - rewrite dist_cons, code_eqb_refl. assumption.
  - rewrite dist_cons. destruct (code_eqb d c); lia.
  - pose proof (dist_delete_le s t c). lia.
  - pose proof (dist_insert_le s t d). lia.
Qed.

Lemma edit_cost_dist s : forall t, edit_cost (dist s t) s t.
Proof.
  induction s as [|c s IHs]; intros t.
  - rewrite dist_nil_l. induction t; cbn [length]; constructor; assumption.
  - induction t as [|d t IHt].
    + rewrite dist_nil_r. cbn [length]. apply edit_delete.
      specialize (IHs []). rewrite dist_nil_r in IHs. exact IHs.
    + rewrite dist_cons. destruct (code_eqb d c) eqn:E.
      * apply code_eqb_eq in E. subst d. apply edit_keep, IHs.
      * destruct (Nat.min_spec (dist s t + 1)
                    (Nat.min (dist s (d :: t) + 1) (dist (c :: s) t + 1)))
          as [[_ ->]|[_ ->]].
        { rewrite Nat.add_1_r. apply edit_substitute, IHs. }
        destruct (Nat.min_spec (dist s (d :: t) + 1) (dist (c :: s) t + 1))
          as [[_ ->]|[_ ->]]; rewrite Nat.add_1_r.
        { apply edit_delete, IHs. }
        { apply edit_insert, IHt. }
Qed.

(** Scripts can be extended at the right end, hence read backwards. *)
Lemma edit_cost_snoc_keep n s t c :
  edit_cost n s t -> edit_cost n (s ++ [c]) (t ++ [c]).
Proof.
  induction 1; cbn [app]; try (constructor; assumption).
  apply edit_keep, edit_done.
Qed.

Lemma edit_cost_snoc_substitute n s t c d :
  edit_cost n s t -> edit_cost (S n) (s ++ [c]) (t ++ [d]).
Proof.
  induction 1; cbn [app]; try (constructor; assumption).
  apply edit_substitute, edit_done.
Qed.

Lemma edit_cost_snoc_delete n s t c :
  edit_cost n s t -> edit_cost (S n) (s ++ [c]) t.
Proof.
  induction 1; cbn [app]; try (constructor; assumption).
  apply edit_delete, edit_done.
Qed.

Lemma edit_cost_snoc_insert n s t d :
  edit_cost n s t -> edit_cost (S n) s (t ++ [d]).
Proof.
  induction 1; cbn [app]; try (constructor; assumption).
  apply edit_insert, edit_done.
Qed.

Lemma edit_cost_rev n s t : edit_cost n s t -> edit_cost n (rev s) (rev t).
Proof.
  induction 1; cbn [rev].
  - constructor.
  - apply edit_cost_snoc_keep; assumption.
  - apply edit_cost_snoc_substitute; assumption.
  - apply edit_cost_snoc_delete; assumption.
  - apply edit_cost_snoc_insert; assumption.
Qed.

Lemma edit_cost_levenshtein s t : edit_cost (levenshteinDistance s t) s t.
Proof.
  rewrite levenshteinDistance_dist.
  rewrite <- (rev_involutive s) at 2. rewrite <- (rev_involutive t) at 2.
  apply edit_cost_rev, edit_cost_dist.
Qed.

Lemma levenshtein_le_edit_cost n s t :
  edit_cost n s t -> levenshteinDistance s t <= n.
Proof.
  intros He. rewrite levenshteinDistance_dist.
  apply dist_le_edit_cost, edit_cost_rev, He.
Qed.

(** Two scripts in a row are worth one script of at most the summed
    cost. *)
Lemma edit_cost_compose n s t :
  edit_cost n s t ->
  forall m u, edit_cost m t u -> exists k, k <= n + m /\ edit_cost k s u.
Proof.
  induction 1 as [|c s t n H1 IH|c d s t n H1 IH|c s t n H1 IH|d s t n H1 IH];
    intros m u H2.
  - exists m. split; [lia|exact H2].
  - remember (c :: t) as t0 eqn:Et.
    induction H2 as [|c' t' u' m H2 _|c' d' t' u' m H2 _|c' t' u' m H2 _
                     |d' t' u' m H2 IH2]; try discriminate.
    + injection Et as -> ->. destruct (IH _ _ H2) as (k & Hk & He).
      exists k. split; [lia|]. apply edit_keep, He.
    + injection Et as -> ->. destruct (IH _ _ H2) as (k & Hk & He).
      exists (S k). split; [lia|]. apply edit_substitute, He.
    + injection Et as -> ->. destruct (IH _ _ H2) as (k & Hk & He).
      exists (S k). split; [lia|]. apply edit_delete, He.
    + destruct (IH2 Et) as (k & Hk & He).
      exists (S k). split; [lia|]. apply edit_insert, He.
  - remember (d :: t) as t0 eqn:Et.
    induction H2 as [|c' t' u' m H2 _|c' d' t' u' m H2 _|c' t' u' m H2 _
                     |d' t' u' m H2 IH2]; try discriminate.
    + injection Et as -> ->. destruct (IH _ _ H2) as (k & Hk & He).
      exists (S k). split; [lia|]. apply edit_substitute, He.
    + injection Et as -> ->. destruct (IH _ _ H2) as (k & Hk & He).
      exists (S k). split; [lia|]. apply edit_substitute, He.
    + injection Et as -> ->. destruct (IH _ _ H2) as (k & Hk & He).
      exists (S k). split; [lia|]. apply edit_delete, He.
    + destruct (IH2 Et) as (k & Hk & He).
      exists (S k). split; [lia|]. apply edit_insert, He.
  - destruct (IH _ _ H2) as (k & Hk & He).
    exists (S k). split; [lia|]. apply edit_delete, He.
  - remember (d :: t) as t0 eqn:Et.
    induction H2 as [|c' t' u' m H2 _|c' d' t' u' m H2 _|c' t' u' m H2 _
                     |d' t' u' m H2 IH2]; try discriminate.
    + injection Et as -> ->. destruct (IH _ _ H2) as (k & Hk & He).
      exists (S k). split; [lia|]. apply edit_insert, He.
    + injection Et as -> ->. destruct (IH _ _ H2) as (k & Hk & He).
      exists (S k). split; [lia|]. apply edit_insert, He.
    + injection Et as -> ->. destruct (IH _ _ H2) as (k & Hk & He).
      exists k. split; [lia|]. exact He.
    + destruct (IH2 Et) as (k & Hk & He).
      exists (S k). split; [lia|]. apply edit_insert, He.
Qed.

End EditScripts.

Section DistanceLaws.

(** X1. [levenshteinDistance s t] is the edit distance of [s] and [t]:
    some script of kept characters, substitutions, deletions and
    insertions turns [s] into [t] at that cost, and no script does it
    for less. *)
Theorem levenshteinDistance_is_edit_distance (s t : jsstring) :
  edit_cost (levenshteinDistance s t) s t
  /\ forall n, edit_cost n s t -> levenshteinDistance s t <= n.
Proof.
  split; [apply edit_cost_levenshtein|].
  intros n. apply levenshtein_le_edit_cost.
Qed.

Lemma levenshteinDistance_zero_iff (s t : jsstring) :
  levenshteinDistance s t = 0 <-> s = t.
Proof.
  split.
  - intros H0. apply (edit_cost_zero _ _ _ (edit_cost_levenshtein s t) H0).
  - intros ->. pose proof (levenshtein_le_edit_cost _ _ _ (edit_cost_refl t)).
    lia.
Qed.

(** X2. [levenshteinDistance] is a metric on strings: it does not
    depend on the order of its arguments although the matrix is indexed
    by them differently, it is 0 exactly for equal strings, and it obeys
    the triangle inequality. *)
Theorem levenshteinDistance_metric (s t u : jsstring) :
  levenshteinDistance s t = levenshteinDistance t s
  /\ (levenshteinDistance s t = 0 <-> s = t)
  /\ levenshteinDistance s u
     <= levenshteinDistance s t + levenshteinDistance t u.
Proof.
  split; [apply levenshteinDistance_sym|split].
  - apply levenshteinDistance_zero_iff.
  - destruct (edit_cost_compose _ _ _ (edit_cost_levenshtein s t)
                _ _ (edit_cost_levenshtein t u)) as (k & Hk & He).
    apply levenshtein_le_edit_cost in He. lia.
Qed.

(** X3. The distance is at least the difference of the two lengths and
    at most the longer length. *)
Theorem levenshteinDistance_length_bounds (s t : jsstring) :
  Nat.max (length s) (length t) - Nat.min (length s) (length t)
    <= levenshteinDistance s t
  /\ levenshteinDistance s t <= Nat.max (length s) (length t).
Proof.
  split; [|apply levenshteinDistance_le_max].
  pose proof (edit_cost_length _ _ _ (edit_cost_levenshtein s t)). lia.
Qed.

Lemma quotient_ge_threshold (L d : Z) :
  (0 < L)%Z ->
  (FUZZY_THRESHOLD <= inject_Z (L - d) / inject_Z L)%Q <-> (5 * d <= 2 * L)%Z.
Proof.
  intros HL.
  assert (HLq : (0 < inject_Z L)%Q).
  { change 0%Q with (inject_Z 0). rewrite <- Zlt_Qlt. exact HL. }
  assert (Hz : (FUZZY_THRESHOLD * inject_Z L <= inject_Z (L - d))%Q
               <-> (5 * d <= 2 * L)%Z).
  { unfold FUZZY_THRESHOLD, Qle, Qmult, inject_Z. cbn [Qnum Qden].
    rewrite !Z.mul_1_r. cbn [Pos.mul]. lia. }
  rewrite <- Hz. split.
  - intros Hq.
    apply (Qmult_le_compat_r _ _ (inject_Z L)) in Hq; [|apply Qlt_le_weak, HLq].
    rewrite Qmult_comm, (Qmult_comm (_ / _)), Qmult_div_r in Hq.
    + rewrite Qmult_comm. exact Hq.
    + intros H0. rewrite H0 in HLq. apply (Qlt_irrefl _ HLq).
  - intros Hq. apply Qle_shift_div_l; assumption.
Qed.

Lemma quotient_eq_one (L d : Z) :
  (0 < L)%Z -> (inject_Z (L - d) / inject_Z L == 1)%Q <-> d = 0%Z.
Proof.
  intros HL.
  assert (Hne : ~ (inject_Z L == 0)%Q).
  { unfold Qeq, inject_Z. cbn [Qnum Qden]. lia. }
  split.
  - intros Hq.
    assert (Hm : (inject_Z L * (inject_Z (L - d) / inject_Z L)
                  == inject_Z L * 1)%Q) by (rewrite Hq; reflexivity).
    rewrite Qmult_div_r, Qmult_1_r in Hm by exact Hne.
    unfold Qeq, inject_Z in Hm. cbn [Qnum Qden] in Hm. lia.
  - intros ->. rewrite Z.sub_0_r. apply Qmult_inv_r, Hne.
Qed.

Lemma calculateSimilarity_ordered (longer shorter : jsstring) :
  length shorter <= length longer -> length longer <> 0 ->
  calculateSimilarity longer shorter
  = (inject_Z (Z.of_nat (length longer)
               - Z.of_nat (levenshteinDistance longer shorter))
       / inject_Z (Z.of_nat (length longer)))%Q.
Proof.
  intros Hle Hne. unfold calculateSimilarity.
  destruct (Nat.ltb_spec (length shorter) (length longer)) as [Hlt|Hge].
  - destruct (Nat.eqb_spec (length longer) 0); [contradiction|reflexivity].
  - assert (Heq : length shorter = length longer) by lia.
    rewrite Heq.
    destruct (Nat.eqb_spec (length longer) 0); [contradiction|].
    rewrite (levenshteinDistance_sym shorter longer). reflexivity.
Qed.

Lemma calculateSimilarity_sym a b :
  calculateSimilarity a b = calculateSimilarity b a.
Proof.
  unfold calculateSimilarity.
  destruct (Nat.ltb_spec (length b) (length a)) as [Hba|Hba];
    destruct (Nat.ltb_spec (length a) (length b)) as [Hab|Hab];
    try lia; try reflexivity.
  assert (Heq : length a = length b) by lia.
  rewrite Heq, (levenshteinDistance_sym b a). reflexivity.
Qed.

Lemma calculateSimilarity_empty a b :
  length a = 0 -> length b = 0 -> calculateSimilarity a b = 1%Q.
Proof.
  intros Ha Hb. destruct a; [|discriminate]. destruct b; [|discriminate].
  reflexivity.
Qed.

(** X4. [calculateSimilarity] gives the same score for [(a, b)] and
    [(b, a)], and the score is 1 exactly when the two strings are
    equal. *)
Theorem calculateSimilarity_symmetric_identity (a b : jsstring) :
  calculateSimilarity a b = calculateSimilarity b a
  /\ ((calculateSimilarity a b == 1)%Q <-> a = b).
Proof.
  split; [apply calculateSimilarity_sym|].
  assert (Hord : forall x y : jsstring, length y <= length x ->
            ((calculateSimilarity x y == 1)%Q <-> x = y)).
  { intros x y Hle. destruct (Nat.eq_dec (length x) 0) as [H0|H0].
    - rewrite calculateSimilarity_empty by lia.
      destruct x; [|discriminate]. destruct y; [|cbn in Hle; lia].
      split; reflexivity.
    - rewrite calculateSimilarity_ordered by assumption.
      rewrite quotient_eq_one by lia.
      rewrite <- levenshteinDistance_zero_iff. lia. }
  destruct (Nat.le_ge_cases (length b) (length a)) as [Hle|Hle].
  - apply Hord, Hle.
  - rewrite calculateSimilarity_sym, (Hord b a Hle). split; congruence.
Qed.

(** X5. A score of at least the threshold 0.6 bounds the edits and the
    lengths: the distance is at most 0.4 times the longer length, and
    the shorter string has at least 0.6 times the length of the
    longer. *)
Theorem threshold_bounds_edits_and_lengths (a b : jsstring) :
  (FUZZY_THRESHOLD <= calculateSimilarity a b)%Q ->
  5 * levenshteinDistance a b <= 2 * Nat.max (length a) (length b)
  /\ 3 * Nat.max (length a) (length b) <= 5 * Nat.min (length a) (length b).
Proof.
  assert (Hord : forall x y : jsstring, length y <= length x ->
            (FUZZY_THRESHOLD <= calculateSimilarity x y)%Q ->
            5 * levenshteinDistance x y <= 2 * length x
            /\ 3 * length x <= 5 * length y).
  { intros x y Hle Hthr. destruct (Nat.eq_dec (length x) 0) as [H0|H0].
    - pose proof (levenshteinDistance_le_max x y). lia.
    - rewrite calculateSimilarity_ordered in Hthr by assumption.
      apply quotient_ge_threshold in Hthr; [|lia].
      pose proof (edit_cost_length _ _ _ (edit_cost_levenshtein x y)). lia. }
  intros Hthr.
  destruct (Nat.le_ge_cases (length b) (length a)) as [Hle|Hle].
  - destruct (Hord a b Hle Hthr). lia.
  - rewrite calculateSimilarity_sym in Hthr.
    destruct (Hord b a Hle Hthr). rewrite (levenshteinDistance_sym a b). lia.
Qed.

End DistanceLaws.

(** ** What the match decision accepts *)

Section DecisionLayers.

Lemma startsWith_iff needle : forall s,
  startsWith s needle = true <-> exists after, s = needle ++ after.
Proof.
  induction needle as [|c needle IH]; intros s; cbn [startsWith].
  - split; [intros _; exists s; reflexivity|reflexivity].
  - destruct s as [|d s].
    + split; [discriminate|intros [after Ha]; discriminate].
    + rewrite andb_true_iff, IH. split.
      * intros [Hc [after ->]]. apply code_eqb_eq in Hc. subst d.
        exists after. reflexivity.
      * intros [after Ha]. injection Ha as -> ->.
        split; [apply code_eqb_refl|exists after; reflexivity].
Qed.

Lemma includes_iff s : forall needle,
  includes s needle = true <-> occurs_in needle s.
Proof.
  unfold occurs_in.
  induction s as [|d s IH]; intros needle; cbn [includes];
    rewrite orb_true_iff, startsWith_iff.
  - split.
    + intros [[after Ha]|Hf]; [|discriminate]. exists [], after. exact Ha.
    + intros (before & after & Ha). left.
      destruct before; [exists after; exact Ha|discriminate].
  - rewrite IH. split.
    + intros [[after Ha]|(before & after & Ha)].
      * exists [], after. exact Ha.
      * exists (d :: before), after. rewrite Ha. reflexivity.
    + intros (before & after & Ha). destruct before as [|d' before].
      * left. exists after. exact Ha.
      * right. injection Ha as -> ->. exists before, after. reflexivity.
Qed.

Lemma window_found_iff searchText word (len last : Z) :
  (0 < len)%Z -> (last = Z.of_nat (length word) - len)%Z ->
  window_found searchText word len last = true <->
  exists sub, Z.of_nat (length sub) = len
              /\ occurs_in sub word /\ occurs_in sub searchText.
Proof.
  intros Hlen Hlast. unfold window_found. rewrite existsb_exists. split.
  - intros (i & Hi & Hinc). apply in_seq in Hi.
    rewrite substring_window in Hinc.
    exists (take (Z.to_nat len) (drop i word)). split; [|split].
    + rewrite length_take, length_drop. lia.
    + exists (take i word), (drop (Z.to_nat len) (drop i word)).
      rewrite take_drop, take_drop. reflexivity.
    + apply includes_iff, Hinc.
  - intros (sub & Hsub & (before & after & Hw) & Hst).
    exists (length before). split.
    + apply in_seq. rewrite Hw, !length_app in Hlast. lia.
    + rewrite substring_window, Hw, drop_app_length.
      replace (Z.to_nat len) with (length sub) by lia.
      rewrite take_app_length. apply includes_iff, Hst.
Qed.

Lemma similar_word_iff searchText word :
  similar_word searchText word = true <->
  exists searchWord, In searchWord (split space searchText)
                     /\ 3 < length searchWord
                     /\ (FUZZY_THRESHOLD <= calculateSimilarity word searchWord)%Q.
Proof.
  unfold similar_word. rewrite existsb_exists.
  split; intros (sw & Hin & H); exists sw; (split; [exact Hin|]).
  - apply andb_true_iff in H as [Hl Hq].
    split; [apply Nat.ltb_lt, Hl|apply Qle_bool_iff, Hq].
  - destruct H as [Hl Hq]. apply andb_true_iff.
    split; [apply Nat.ltb_lt, Hl|apply Qle_bool_iff, Hq].
Qed.

(** X6. The match decision for one token, layer by layer: the token is
    accepted exactly when it occurs verbatim in the haystack, or it is
    longer than 5 characters and either one of its runs of
    [max 5 (floor (0.7 * length))] consecutive characters occurs in the
    haystack, or a space-separated haystack word longer than 3
    characters scores at least 0.6 against it. *)
Theorem word_hasMatch_layers (searchText word : jsstring) :
  word_hasMatch searchText word = true <->
  occurs_in word searchText
  \/ (5 < length word
      /\ ((exists sub,
             Z.of_nat (length sub) = Z.max 5 (floor_mul (length word) d0_7)
             /\ occurs_in sub word /\ occurs_in sub searchText)
          \/ (exists searchWord,
                In searchWord (split space searchText)
                /\ 3 < length searchWord
                /\ (FUZZY_THRESHOLD
                    <= calculateSimilarity word searchWord)%Q))).
Proof.
  rewrite <- includes_iff, <- similar_word_iff.
  rewrite <- (window_found_iff searchText word _
                (Z.of_nat (length word)
                 - Z.max 5 (floor_mul (length word) d0_7)))
    by (reflexivity || lia).
  unfold word_hasMatch.
  destruct (includes searchText word); [tauto|].
  destruct (Nat.ltb_spec 5 (length word)) as [H5|H5].
  - destruct (window_found _ _ _ _); [tauto|].
    destruct (Nat.ltb_spec 4 (length word)); [|lia].
    destruct (similar_word searchText word); [tauto|].
    split; [discriminate|]. intros [Hf|[_ [Hf|Hf]]]; discriminate.
  - split; [discriminate|]. intros [Hf|[Hl _]]; [discriminate|lia].
Qed.

End DecisionLayers.

(** ** The filter as a function of the tokens and of the catalog *)

Section FilterLaws.

Context `{ToLowerCase}.

Lemma filter_sublist_impl {A} (f g : A -> bool) (l : list A) :
  (forall x, f x = true -> g x = true) ->
  List.filter f l `sublist_of` List.filter g l.
Proof.
  intros Himp. induction l as [|x l IH]; cbn [List.filter].
  - constructor.
  - destruct (f x) eqn:Ef.
    + rewrite (Himp x Ef). constructor. exact IH.
    + destruct (g x); [constructor|]; exact IH.
Qed.

Lemma hasMatch_incl searchText ws ws' :
  (forall w, In w ws -> In w ws') ->
  hasMatch searchText ws = true -> hasMatch searchText ws' = true.
Proof.
  unfold hasMatch. intros Hincl Hm.
  apply existsb_exists in Hm as (w & Hin & Hw).
  apply existsb_exists. eauto.
Qed.

(** X7. With a non-empty token list the filter is monotone in the
    tokens and blind to their order and repetition: every token list
    that contains the same tokens and possibly more keeps the products
    kept before, in place, and two lists with the same tokens give the
    same output. *)
Theorem filter_depends_on_token_set products (ws ws' : list jsstring) :
  ws <> [] ->
  (forall w, In w ws -> In w ws') ->
  filterProductsWithFuzzy (JsArray products) (JsArray ws)
    `sublist_of` filterProductsWithFuzzy (JsArray products) (JsArray ws')
  /\ ((forall w, In w ws' -> In w ws) ->
      filterProductsWithFuzzy (JsArray products) (JsArray ws)
      = filterProductsWithFuzzy (JsArray products) (JsArray ws')).
Proof.
  intros Hne Hincl.
  assert (Hne' : ws' <> []).
  { destruct ws as [|w ws]; [congruence|].
    intros ->. apply (Hincl w). left. reflexivity. }
  rewrite !filter_tokens_nonempty by assumption. split.
  - apply filter_sublist_impl. intros p. apply hasMatch_incl, Hincl.
  - intros Hincl'. apply filter_ext. intros p.
    destruct (hasMatch (searchText p) ws) eqn:E.
    + symmetry. apply (hasMatch_incl _ ws); assumption.
    + destruct (hasMatch (searchText p) ws') eqn:E'; [|reflexivity].
      rewrite (hasMatch_incl _ ws' ws Hincl' E') in E. discriminate.
Qed.

Lemma existsb_agree {A} (f g : A -> bool) (l : list A) :
  (forall x, In x l -> f x = g x) -> existsb f l = existsb g l.
Proof.
  induction l as [|x l IH]; intros Hfg; cbn [existsb]; [reflexivity|].
  rewrite (Hfg x) by (left; reflexivity).
  rewrite IH; [reflexivity|]. intros y Hy. apply Hfg. right. exact Hy.
Qed.

(** X8. Tokens of at most 5 characters are matched verbatim only: when
    every token of a non-empty list has at most 5 characters, the output
    is the products whose haystack includes one of the tokens. *)
Theorem short_tokens_match_verbatim_only products (ws : list jsstring) :
  ws <> [] ->
  (forall w, In w ws -> length w <= 5) ->
  filterProductsWithFuzzy (JsArray products) (JsArray ws)
  = List.filter (fun p => existsb (includes (searchText p)) ws) products.
Proof.
  intros Hne Hshort. rewrite filter_tokens_nonempty by exact Hne.
  apply filter_ext. intros p. unfold hasMatch.
  apply existsb_agree. intros w Hin. apply word_hasMatch_short, Hshort, Hin.
Qed.

Lemma includes_empty s : includes s [] = true.
Proof. destruct s; reflexivity. Qed.

(** X9. An empty string among the tokens matches every product: the
    output is then the whole input, however long. *)
Theorem empty_token_keeps_everything products (ws : list jsstring) :
  In [] ws ->
  filterProductsWithFuzzy (JsArray products) (JsArray ws) = products.
Proof.
  intros Hin.
  rewrite filter_tokens_nonempty by (intros ->; exact Hin).
  rewrite <- (filter_true products) at 2. cbn.
  apply filter_ext. intros p.
  apply (hasMatch_In _ _ [] Hin), word_hasMatch_exact, includes_empty.
Qed.

Lemma list_filter_idem {A} (f : A -> bool) (l : list A) :
  List.filter f (List.filter f l) = List.filter f l.
Proof.
  induction l as [|x l IH]; cbn [List.filter]; [reflexivity|].
  destruct (f x) eqn:E; cbn [List.filter]; rewrite ?E, IH; reflexivity.
Qed.

(** X10. Filtering is idempotent: running the filter on its own output
    with the same token argument returns that output. *)
Theorem filter_idempotent products (searchWords : jsarg jsstring) :
  filterProductsWithFuzzy
    (JsArray (filterProductsWithFuzzy (JsArray products) searchWords))
    searchWords
  = filterProductsWithFuzzy (JsArray products) searchWords.
Proof.
  destruct searchWords as [|[|w ws]]; cbn [filterProductsWithFuzzy].
  - rewrite take_take. reflexivity.
  - rewrite take_take. reflexivity.
  - apply list_filter_idem.
Qed.

(** X11. Only the title and the description are searched: a change to
    the products that leaves every title and description as it is (new
    tags, images, variants or ids) commutes with the filter, so it
    neither adds nor removes a product. *)
Theorem filter_reads_title_and_description
    (g : product -> product) products (searchWords : jsarg jsstring) :
  (forall p, p_title (g p) = p_title p
             /\ p_description (g p) = p_description p) ->
  filterProductsWithFuzzy (JsArray (List.map g products)) searchWords
  = List.map g (filterProductsWithFuzzy (JsArray products) searchWords).
Proof.
  intros Hg.
  assert (Hst : forall p, searchText (g p) = searchText p).
  { intros p. unfold searchText. destruct (Hg p) as [-> ->]. reflexivity. }
  destruct searchWords as [|[|w ws]]; cbn [filterProductsWithFuzzy].
  - rewrite <- fmap_take. reflexivity.
  - rewrite <- fmap_take. reflexivity.
  - induction products as [|p ps IH]; cbn [List.map List.filter].
    + reflexivity.
    + rewrite Hst. destruct (hasMatch (searchText p) (w :: ws));
        cbn [List.map]; rewrite IH; reflexivity.
Qed.

Lemma split_head_prefix sep s :
  exists w ws after, split sep s = w :: ws /\ s = w ++ after.
Proof.
  induction s as [|c s (w & ws & after & Es & Hs)]; cbn [split].
  - exists [], [], []. split; reflexivity.
  - destruct (code_eqb c sep).
    + exists [], (split sep s), (c :: s). split; reflexivity.
    + rewrite Es. exists (c :: w), ws, after. rewrite Hs at 1.
      split; reflexivity.
Qed.

Lemma split_pieces sep s :
  Forall (fun piece => ~ In sep piece /\ occurs_in piece s) (split sep s).
Proof.
  induction s as [|c s IH]; cbn [split].
  - constructor; [|constructor]. split; [intros []|exists [], []; reflexivity].
  - assert (Hshift : Forall (fun piece => ~ In sep piece
                                          /\ occurs_in piece (c :: s))
                       (split sep s)).
    { eapply Forall_impl; [exact IH|].
      intros piece [Hno (before & after & ->)]. split; [exact Hno|].
      exists (c :: before), after. reflexivity. }
    destruct (code_eqb c sep) eqn:E.
    + constructor; [|exact Hshift].
      split; [intros []|exists [], (c :: s); reflexivity].
    + destruct (split_head_prefix sep s) as (w & ws & after & Es & Hs).
      rewrite Es in *.
      apply Forall_cons in IH as [[Hno _] _].
      apply Forall_cons in Hshift as [_ Hrest].
      constructor; [|exact Hrest]. split.
      * intros [->|Hin]; [|exact (Hno Hin)].
        rewrite code_eqb_refl in E. discriminate.
      * exists [], after. rewrite Hs at 1. reflexivity.
Qed.

(** X12. The tokens the webhook handler hands to the filter are longer
    than 2 characters, contain no space, and each occurs in the
    lowercased query text. *)
Theorem webhook_words_are_tokens correctedText word :
  In word (webhook_words correctedText) ->
  2 < length word
  /\ ~ In space word
  /\ occurs_in word (toLowerCase correctedText).
Proof.
  unfold webhook_words. intros Hin.
  apply filter_In in Hin as [Hin Hlen].
  pose proof (split_pieces space (toLowerCase correctedText)) as Hall.
  rewrite List.Forall_forall in Hall. destruct (Hall _ Hin) as [Hno Hocc].
  split; [apply Nat.ltb_lt, Hlen|split; assumption].
Qed.

End FilterLaws.

(** ** What the reply depends on *)

Section ReplyLaws.

Lemma product_block_shown p : product_block (shown p) = product_block p.
Proof.
  unfold product_block, shown. cbn [p_title p_image p_variants].
  rewrite take_take. reflexivity.
Qed.

Lemma response_layout p ps searchWords :
  formatProductResponse (JsArray (p :: ps)) searchWords
  = header (length (p :: ps))
      ++ concat (List.map product_block (take 20 (p :: ps)))
      ++ more_suffix (length (p :: ps))
      ++ call_to_action.
Proof.
  unfold formatProductResponse, header, more_suffix.
  rewrite fold_product_blocks.
  destruct (20 <? length (p :: ps)); repeat rewrite <- app_assoc; reflexivity.
Qed.

(** X13. The reply shows nothing of what the caps hide: two product
    lists of the same length whose first 20 products agree once each is
    cut down to its first 3 variants get the same reply. *)
Theorem reply_ignores_hidden_items products products' searchWords :
  length products = length products' ->
  List.map shown (take 20 products) = List.map shown (take 20 products') ->
  formatProductResponse (JsArray products) searchWords
  = formatProductResponse (JsArray products') searchWords.
Proof.
  intros Hlen Hshown.
  destruct products as [|p ps], products' as [|p' ps']; try discriminate.
  - reflexivity.
  - rewrite !response_layout, Hlen. do 2 f_equal.
    assert (Hblocks : forall l,
              List.map product_block l
              = List.map product_block (List.map shown l)).
    { intros l. rewrite List.map_map. apply List.map_ext.
      intros q. symmetry. apply product_block_shown. }
    rewrite (Hblocks (take 20 (p :: ps))), Hshown, <- Hblocks. reflexivity.
Qed.

Lemma variant_line_display v v' :
  same_variant_display v v' -> variant_line v = variant_line v'.
Proof.
  intros (Ht & Hp & Hq). unfold variant_line. rewrite Ht, Hp, Hq. reflexivity.
Qed.

Lemma product_block_display p p' :
  same_display p p' -> product_block p = product_block p'.
Proof.
  intros (Ht & Hi & Hv). unfold product_block. rewrite Ht, Hi.
  assert (Hlines : forall n,
            List.map variant_line (take n (p_variants p))
            = List.map variant_line (take n (p_variants p'))).
  { induction Hv as [|v v' vs vs' Hvv _ IH]; intros n; [reflexivity|].
    destruct n as [|n]; [reflexivity|]. cbn [take List.map].
    rewrite (variant_line_display _ _ Hvv), IH. reflexivity. }
  rewrite (Hlines 3). reflexivity.
Qed.

(** X14. The reply reads only the title and the image of a product and
    the title, price and quantity of a variant: product lists that agree
    on these get the same reply, whatever their ids, descriptions, tags,
    image texts and [available_for_sale] flags are. *)
Theorem reply_reads_displayed_fields products products' searchWords :
  Forall2 same_display products products' ->
  formatProductResponse (JsArray products) searchWords
  = formatProductResponse (JsArray products') searchWords.
Proof.
  intros Hall.
  assert (Hblocks : forall n,
            List.map product_block (take n products)
            = List.map product_block (take n products')).
  { induction Hall as [|p p' ps ps' Hp _ IH]; intros n.
    - reflexivity.
    - destruct n as [|n]; [reflexivity|]. cbn [take List.map].
      rewrite (product_block_display _ _ Hp), IH. reflexivity. }
  pose proof (Forall2_length _ _ _ Hall) as Hlen.
  destruct products as [|p ps], products' as [|p' ps']; try discriminate.
  - reflexivity.
  - rewrite !response_layout, Hlen, Hblocks. reflexivity.
Qed.

End ReplyLaws.

(** ** The catalog cache *)

Section CacheLaws.

Context `{ToLowerCase}.

Local Open Scope Z_scope.

Lemma answer_when_fresh mysqlCache data now fetched searchWords :
  cache_data mysqlCache = Some data ->
  now - cache_timestamp mysqlCache < CACHE_DURATION ->
  queryMySQLProducts mysqlCache now fetched searchWords
  = (mysqlCache,
     Returned
       (formatProductResponse
          (JsArray (filterProductsWithFuzzy (JsArray data) searchWords))
          searchWords)).
Proof.
  intros Hdata Hage. unfold queryMySQLProducts. rewrite Hdata.
  destruct (Z.ltb_spec (now - cache_timestamp mysqlCache) CACHE_DURATION);
    [reflexivity|lia].
Qed.

(** X15. While the cached catalog is younger than 5 minutes the reply
    is computed from it alone: the cache stays as it is and what the
    database would return plays no part. *)
Theorem fresh_cache_answers mysqlCache data now fetched fetched' searchWords :
  cache_data mysqlCache = Some data ->
  now - cache_timestamp mysqlCache < CACHE_DURATION ->
  queryMySQLProducts mysqlCache now fetched searchWords
  = (mysqlCache,
     Returned
       (formatProductResponse
          (JsArray (filterProductsWithFuzzy (JsArray data) searchWords))
          searchWords))
  /\ queryMySQLProducts mysqlCache now fetched searchWords
     = queryMySQLProducts mysqlCache now fetched' searchWords.
Proof.
  intros Hdata Hage.
  rewrite !(answer_when_fresh _ _ _ _ _ Hdata Hage). split; reflexivity.
Qed.

Lemma refresh_when_stale mysqlCache now fetched searchWords :
  cache_data mysqlCache = None
  \/ CACHE_DURATION <= now - cache_timestamp mysqlCache ->
  queryMySQLProducts mysqlCache now fetched searchWords
  = match fetched with
    | Returned allProducts =>
        ({| cache_data := Some allProducts; cache_timestamp := now |},
         Returned
           (formatProductResponse
              (JsArray (filterProductsWithFuzzy (JsArray allProducts)
                          searchWords))
              searchWords))
    | Thrown error => (mysqlCache, Thrown error)
    end.
Proof.
  intros Hstale. unfold queryMySQLProducts.
  destruct (cache_data mysqlCache) as [data|]; [|reflexivity].
  destruct Hstale as [Hnone|Hold]; [discriminate|].
  destruct (Z.ltb_spec (now - cache_timestamp mysqlCache) CACHE_DURATION);
    [lia|reflexivity].
Qed.

(** X16. A catalog fetched at time [t0] is served for the next 5
    minutes: after a query that found the cache empty or stale and
    fetched [catalog], every query at a time [t1] with
    [t1 - t0 < 300000] replies from [catalog] and leaves the cache as
    that first query set it, whatever the database holds by then. *)
Theorem fetched_catalog_is_reused mysqlCache t0 t1 catalog
    searchWords0 searchWords1 fetched1 :
  cache_data mysqlCache = None
  \/ CACHE_DURATION <= t0 - cache_timestamp mysqlCache ->
  t1 - t0 < CACHE_DURATION ->
  let mysqlCache' :=
    fst (queryMySQLProducts mysqlCache t0 (Returned catalog) searchWords0) in
  queryMySQLProducts mysqlCache' t1 fetched1 searchWords1
  = (mysqlCache',
     Returned
       (formatProductResponse
          (JsArray (filterProductsWithFuzzy (JsArray catalog) searchWords1))
          searchWords1)).
Proof.
  intros Hstale Hage. cbv zeta.
  rewrite (refresh_when_stale _ _ _ _ Hstale). cbn [fst].
  unfold queryMySQLProducts. cbn [cache_data cache_timestamp].
  destruct (Z.ltb_spec (t1 - t0) CACHE_DURATION); [reflexivity|lia].
Qed.

(** X17. A failed fetch is rethrown and not remembered: with an empty
    or stale cache and a database call that throws, the query throws the
    same error and leaves the cache as it was, so the next query goes to
    the database again. *)
Theorem failed_fetch_is_not_cached mysqlCache t0 t1 message
    searchWords0 searchWords1 fetched1 :
  cache_data mysqlCache = None
  \/ CACHE_DURATION <= t0 - cache_timestamp mysqlCache ->
  t0 <= t1 ->
  queryMySQLProducts mysqlCache t0 (Thrown message) searchWords0
  = (mysqlCache, Thrown message)
  /\ queryMySQLProducts
       (fst (queryMySQLProducts mysqlCache t0 (Thrown message) searchWords0))
       t1 fetched1 searchWords1
     = match fetched1 with
       | Returned allProducts =>
           ({| cache_data := Some allProducts; cache_timestamp := t1 |},
            Returned
              (formatProductResponse
                 (JsArray (filterProductsWithFuzzy (JsArray allProducts)
                             searchWords1))
                 searchWords1))
       | Thrown error => (mysqlCache, Thrown error)
       end.
Proof.
  intros Hstale Hle.
  rewrite (refresh_when_stale _ _ _ _ Hstale). cbn [fst]. split; [reflexivity|].
  apply refresh_when_stale. destruct Hstale as [Hn|Hold]; [left; exact Hn|].
  right. lia.
Qed.

End CacheLaws.

(** ** The webhook handler and the corrected-name cache *)

Section HandlerLaws.

Context `{ToLowerCase}.

Lemma filter_none {A} (f : A -> bool) (l : list A) :
  (forall x, In x l -> f x = false) -> List.filter f l = [].
Proof.
  induction l as [|x l IH]; intros Hf; cbn [List.filter]; [reflexivity|].
  rewrite (Hf x) by (left; reflexivity).
  apply IH. intros y Hy. apply Hf. right. exact Hy.
Qed.

(** X18. A query without a word longer than 2 characters is not
    refused: answered from a fresh cache, it gets status 200 and the
    reply for the first 20 products of the catalog, as for an empty
    token list. *)
Theorem short_query_lists_first_twenty mysqlCache data now fetched
    text correctedText :
  text <> [] ->
  (forall word, In word (split space (toLowerCase correctedText)) ->
                length word <= 2) ->
  cache_data mysqlCache = Some data ->
  (now - cache_timestamp mysqlCache < CACHE_DURATION)%Z ->
  webhook mysqlCache now fetched text correctedText
  = (mysqlCache,
     {| status := 200;
        fulfillment_text :=
          formatProductResponse (JsArray (take 20 data)) (JsArray []) |}).
Proof.
  intros Htext Hshort Hdata Hage.
  destruct text as [|c text]; [congruence|]. unfold webhook.
  assert (Hwords : webhook_words correctedText = []).
  { unfold webhook_words. apply filter_none. intros word Hin.
    apply Nat.ltb_ge, Hshort, Hin. }
  rewrite Hwords, (answer_when_fresh _ _ _ _ _ Hdata Hage). reflexivity.
Qed.

(** X19. A correction is remembered under the lowercased, trimmed
    query: after a call that got an answer from Gemini, a call with a
    text of the same key returns the result of that first call and
    leaves the cache as it is, whatever Gemini would answer now. *)
Theorem corrected_name_is_remembered
    (correctedNames : gmap jsstring jsstring) text text' answer reply' :
  trim (toLowerCase text') = trim (toLowerCase text) ->
  preprocessWithGemini true
    (fst (preprocessWithGemini true correctedNames text (GeminiText answer)))
    text' reply'
  = preprocessWithGemini true correctedNames text (GeminiText answer).
Proof.
  intros Hkey. unfold preprocessWithGemini. cbn [negb]. rewrite Hkey.
  destruct (correctedNames !! trim (toLowerCase text)) as [cached|] eqn:E.
  - cbn [fst]. rewrite E. reflexivity.
  - destruct (includes _ _); cbn [fst]; rewrite lookup_insert_eq; reflexivity.
Qed.

End HandlerLaws.

(** ** Grouping the variant rows *)

Section CatalogLaws.

Context `{Inherited}.

Lemma variants_of_cons id row rows :
  variants_of id (row :: rows)
  = (if bool_decide (vrow_product_id row = id) then [variant_of_row row]
     else []) ++ variants_of id rows.
Proof.
  unfold variants_of. cbn [List.filter].
  destruct (bool_decide (vrow_product_id row = id)); reflexivity.
Qed.

(** After the loop, the own property for [id] is what it was before
    followed by the rows of [id], and there is none if there was none
    and no row names [id]. *)
Lemma group_variants_spec variantRows :
  forall variantsByProduct,
  (forall row, In row variantRows -> inherited (vrow_product_id row) = false) ->
  exists grouped,
    group_variants variantRows variantsByProduct = Returned grouped
    /\ forall id,
         grouped !! id
         = match variantsByProduct !! id, variants_of id variantRows with
           | Some variants, mine => Some (variants ++ mine)
           | None, [] => None
           | None, mine => Some mine
           end.
Proof.
  induction variantRows as [|row rows IH]; intros acc Hok.
  - exists acc. split; [reflexivity|]. intros id. cbn.
    destruct (acc !! id); [rewrite app_nil_r|]; reflexivity.
  - assert (Hrest : forall r, In r rows -> inherited (vrow_product_id r) = false)
      by (intros r Hr; apply Hok; right; exact Hr).
    cbn [group_variants].
    destruct (acc !! vrow_product_id row) as [variants|] eqn:E.
    + destruct (IH (<[vrow_product_id row := variants ++ [variant_of_row row]]> acc)
                  Hrest) as (grouped & Hg & Hlook).
      exists grouped. split; [exact Hg|]. intros id.
      rewrite Hlook, variants_of_cons. case_bool_decide as Hid.
      * subst id. rewrite lookup_insert_eq, E, <- app_assoc. reflexivity.
      * rewrite lookup_insert_ne by exact Hid. reflexivity.
    + rewrite (Hok row) by (left; reflexivity).
      destruct (IH (<[vrow_product_id row := [variant_of_row row]]> acc) Hrest)
        as (grouped & Hg & Hlook).
      exists grouped. split; [exact Hg|]. intros id.
      rewrite Hlook, variants_of_cons. case_bool_decide as Hid.
      * subst id. rewrite lookup_insert_eq, E. reflexivity.
      * rewrite lookup_insert_ne by exact Hid. reflexivity.
Qed.

(** X20. When no product id names an inherited member of the grouping
    object, [fetchAllProductsFromMySQL] returns one product per product
    row, in row order and with the row's fields, and each carries
    exactly the variant rows with its id, in their row order; a product
    without variant rows gets the empty list and variant rows of unknown
    products are dropped. *)
Theorem fetch_groups_variants_by_product productRows variantRows :
  (forall row, In row variantRows -> inherited (vrow_product_id row) = false) ->
  (forall row, In row productRows -> inherited (row_id row) = false) ->
  fetchAllProductsFromMySQL productRows variantRows
  = Returned
      (List.map
         (fun row =>
            Product (product_of_row row (variants_of (row_id row) variantRows)))
         productRows).
Proof.
  intros Hv Hp. unfold fetchAllProductsFromMySQL.
  destruct (group_variants_spec variantRows ∅ Hv) as (grouped & -> & Hlook).
  f_equal. apply List.map_ext_in. intros row Hin.
  rewrite Hlook, lookup_empty, (Hp row Hin).
  destruct (variants_of (row_id row) variantRows); reflexivity.
Qed.

Lemma group_variants_throws variantRows :
  forall variantsByProduct,
  (forall id, inherited id = true -> variantsByProduct !! id = None) ->
  (exists row, In row variantRows /\ inherited (vrow_product_id row) = true) ->
  exists message, group_variants variantRows variantsByProduct = Thrown message.
Proof.
  induction variantRows as [|row rows IH]; intros acc Hacc (bad & Hin & Hbad).
  - destruct Hin.
  - cbn [group_variants].
    destruct (inherited (vrow_product_id row)) eqn:Einh.
    + rewrite (Hacc _ Einh). eexists. reflexivity.
    + assert (Hbad' : exists r, In r rows /\ inherited (vrow_product_id r) = true).
      { destruct Hin as [->|Hin]; [congruence|]. exists bad. auto. }
      destruct (acc !! vrow_product_id row); apply IH; try exact Hbad';
        intros id Hid; (rewrite lookup_insert_ne; [apply Hacc, Hid|congruence]).
Qed.

(** X21. A variant row whose product id names an inherited member of
    the grouping object makes [fetchAllProductsFromMySQL] throw: no
    catalog is returned, whatever the other rows are. *)
Theorem inherited_variant_id_throws productRows variantRows :
  (exists row, In row variantRows /\ inherited (vrow_product_id row) = true) ->
  exists message,
    fetchAllProductsFromMySQL productRows variantRows = Thrown message.
Proof.
  intros Hbad. unfold fetchAllProductsFromMySQL.
  destruct (group_variants_throws variantRows ∅) as (message & ->);
    [intros id _; apply lookup_empty|exact Hbad|].
  exists message. reflexivity.
Qed.

End CatalogLaws.

(** ** Typing errors the similarity layer forgives, and the matrix
    invariant *)

Section TypoTolerance.

Context `{ToLowerCase}.

Lemma threshold_iff_edits (a b : jsstring) :
  (FUZZY_THRESHOLD <= calculateSimilarity a b)%Q <->
  5 * levenshteinDistance a b <= 2 * Nat.max (length a) (length b).
Proof.
  assert (Hord : forall x y : jsstring, length y <= length x ->
            ((FUZZY_THRESHOLD <= calculateSimilarity x y)%Q <->
             5 * levenshteinDistance x y <= 2 * length x)).
  { intros x y Hle. destruct (Nat.eq_dec (length x) 0) as [H0|H0].
    - rewrite calculateSimilarity_empty by lia.
      pose proof (levenshteinDistance_le_max x y).
      split; [lia|]. intros _. apply Qle_bool_iff. reflexivity.
    - rewrite calculateSimilarity_ordered by assumption.
      rewrite quotient_ge_threshold by lia. lia. }
  destruct (Nat.le_ge_cases (length b) (length a)) as [Hle|Hle].
  - rewrite (Hord a b Hle). lia.
  - rewrite calculateSimilarity_sym, (levenshteinDistance_sym a b),
      (Hord b a Hle). lia.
Qed.

(** X22. Typing errors are forgiven up to 0.4 edits per character: a
    product is kept when a token longer than 5 characters can be turned
    into a space-separated haystack word longer than 3 characters by [n]
    substitutions, insertions and deletions with [5 * n] at most twice
    the longer of the two lengths. *)
Theorem few_edits_still_match products searchWords p word searchWord n :
  In p products ->
  In word searchWords ->
  5 < length word ->
  In searchWord (split space (searchText p)) ->
  3 < length searchWord ->
  edit_cost n word searchWord ->
  5 * n <= 2 * Nat.max (length word) (length searchWord) ->
  In p (filterProductsWithFuzzy (JsArray products) (JsArray searchWords)).
Proof.
  intros Hp Hw Hlen Hsw Hlen' Hedit Hn.
  apply kept_by_filter; [intros ->; exact Hw|exact Hp|].
  apply (hasMatch_In _ _ word Hw), word_hasMatch_similar; [exact Hlen|].
  apply (similar_word_intro _ _ searchWord); [exact Hsw|exact Hlen'|].
  apply threshold_iff_edits.
  pose proof (levenshtein_le_edit_cost _ _ _ Hedit). lia.
Qed.

(** X23. Every cell of the matrix holds the distance of two prefixes:
    the cell in row [i] and column [j] is [levenshteinDistance] of the
    first [j] characters of [str1] and the first [i] characters of
    [str2]. *)
Theorem matrix_cell_is_prefix_distance (str1 str2 : jsstring) i j :
  i <= length str2 ->
  j <= length str1 ->
  nth j (nth i (matrix str1 str2) []) 0
  = levenshteinDistance (take j str1) (take i str2).
Proof.
  intros Hi Hj. rewrite levenshteinDistance_dist. unfold matrix.
  change (seq 0 (S (length str1)))
    with (seq (length (@nil code_unit)) (S (length str1))).
  rewrite <- (row_from_first_row str1 []).
  change 1 with (S (length (@nil code_unit))).
  rewrite fill_rows_spec.
  destruct i as [|i]; cbn [nth].
  - rewrite nth_row_from by exact Hj. rewrite app_nil_r. reflexivity.
  - rewrite nth_rows_from by lia. rewrite nth_row_from by exact Hj.
    rewrite !app_nil_r. reflexivity.
Qed.

End TypoTolerance.

(** ** The further properties at concrete inputs *)

Section MoreConcrete.

Local Existing Instance asciiLower.
Local Existing Instance node_inherited.

Lemma threshold_bounds_witness :
  5 * levenshteinDistance (js "garnit") (js "garnet")
    <= 2 * Nat.max (length (js "garnit")) (length (js "garnet"))
  /\ 3 * Nat.max (length (js "garnit")) (length (js "garnet"))
     <= 5 * Nat.min (length (js "garnit")) (length (js "garnet")).
Proof.
  apply threshold_bounds_edits_and_lengths.
  apply Qle_bool_iff. vm_compute. reflexivity.
Defined.

Lemma token_set_witness :
  filterProductsWithFuzzy (JsArray [ruby_gemstone; garnet_beads])
    (JsArray [js "ruby"])
  `sublist_of`
  filterProductsWithFuzzy (JsArray [ruby_gemstone; garnet_beads])
    (JsArray [js "garnet"; js "ruby"]).
Proof.
  apply filter_depends_on_token_set.
  - discriminate.
  - intros w [<-|[]]. right. left. reflexivity.
Defined.

Lemma short_tokens_witness :
  filterProductsWithFuzzy (JsArray [ruby_gemstone; garnet_beads])
    (JsArray [js "ruby"])
  = List.filter (fun p => existsb (includes (searchText p)) [js "ruby"])
      [ruby_gemstone; garnet_beads].
Proof.
  apply short_tokens_match_verbatim_only.
  - discriminate.
  - intros w [<-|[]]. cbn. lia.
Defined.

Lemma empty_token_witness :
  filterProductsWithFuzzy (JsArray catalog57) (JsArray [js "zircon"; []])
  = catalog57.
Proof.
  apply empty_token_keeps_everything. right. left. reflexivity.
Defined.

Lemma searched_fields_witness :
  filterProductsWithFuzzy
    (JsArray (List.map retagged [ruby_strand "r-2" true; garnet_beads]))
    (JsArray [js "ruby"])
  = List.map retagged
      (filterProductsWithFuzzy
         (JsArray [ruby_strand "r-2" true; garnet_beads])
         (JsArray [js "ruby"])).
Proof.
  apply filter_reads_title_and_description.
  intros p. split; reflexivity.
Defined.

Lemma webhook_words_witness :
  2 < length (js "ruby")
  /\ ~ In space (js "ruby")
  /\ occurs_in (js "ruby") (toLowerCase (js "A Ruby")).
Proof.
  apply (webhook_words_are_tokens (js "A Ruby") (js "ruby")).
  left. reflexivity.
Defined.

Lemma hidden_items_witness :
  formatProductResponse (JsArray catalog57) (JsArray [js "ruby"])
  = formatProductResponse
      (JsArray (take 20 catalog57 ++ repeat (ruby_strand "r-3" true) 37))
      (JsArray [js "ruby"]).
Proof.
  apply reply_ignores_hidden_items; reflexivity.
Defined.

Lemma displayed_fields_witness :
  formatProductResponse (JsArray [ruby_strand "r-1" true]) (JsArray [])
  = formatProductResponse (JsArray [ruby_strand "r-2" false]) (JsArray []).
Proof.
  apply reply_reads_displayed_fields.
  constructor; [|constructor].
  split; [reflexivity|split; [reflexivity|]].
  constructor; [|constructor].
  split; [reflexivity|split; reflexivity].
Defined.

Lemma fresh_cache_witness :
  queryMySQLProducts warm_cache 200000 (Thrown (js "ECONNREFUSED"))
    (JsArray [js "ruby"])
  = (warm_cache,
     Returned
       (formatProductResponse
          (JsArray
             (filterProductsWithFuzzy
                (JsArray [ruby_gemstone; garnet_beads])
                (JsArray [js "ruby"])))
          (JsArray [js "ruby"]))).
Proof.
  apply (fresh_cache_answers warm_cache [ruby_gemstone; garnet_beads] 200000
           (Thrown (js "ECONNREFUSED")) (Returned []));
    reflexivity.
Defined.

Lemma reused_catalog_witness :
  queryMySQLProducts
    (fst (queryMySQLProducts initial_cache 1000 (Returned [ruby_gemstone])
            (JsArray [js "ruby"])))
    200000 (Returned []) (JsArray [js "garnet"])
  = (fst (queryMySQLProducts initial_cache 1000 (Returned [ruby_gemstone])
            (JsArray [js "ruby"])),
     Returned
       (formatProductResponse
          (JsArray
             (filterProductsWithFuzzy (JsArray [ruby_gemstone])
                (JsArray [js "garnet"])))
          (JsArray [js "garnet"]))).
Proof.
  apply (fetched_catalog_is_reused initial_cache 1000 200000 [ruby_gemstone]).
  - left. reflexivity.
  - reflexivity.
Defined.

Lemma failed_fetch_witness :
  queryMySQLProducts initial_cache 1000 (Thrown (js "ECONNREFUSED"))
    (JsArray [js "ruby"])
  = (initial_cache, Thrown (js "ECONNREFUSED"))
  /\ queryMySQLProducts
       (fst (queryMySQLProducts initial_cache 1000
               (Thrown (js "ECONNREFUSED")) (JsArray [js "ruby"])))
       2000 (Returned [ruby_gemstone]) (JsArray [js "ruby"])
     = ({| cache_data := Some [ruby_gemstone]; cache_timestamp := 2000 |},
        Returned
          (formatProductResponse
             (JsArray
                (filterProductsWithFuzzy (JsArray [ruby_gemstone])
                   (JsArray [js "ruby"])))
             (JsArray [js "ruby"]))).
Proof.
  apply (failed_fetch_is_not_cached initial_cache 1000 2000
           (js "ECONNREFUSED") (JsArray [js "ruby"]) (JsArray [js "ruby"])
           (Returned [ruby_gemstone])).
  - left. reflexivity.
  - discriminate.
Defined.

Lemma short_query_witness :
  webhook warm_cache 200000 (Thrown (js "ECONNREFUSED")) (js "hi") (js "hi")
  = (warm_cache,
     {| status := 200;
        fulfillment_text :=
          formatProductResponse
            (JsArray (take 20 [ruby_gemstone; garnet_beads])) (JsArray []) |}).
Proof.
  apply short_query_lists_first_twenty.
  - discriminate.
  - intros word [<-|[]]. cbn. lia.
  - reflexivity.
  - reflexivity.
Defined.

Lemma remembered_name_witness :
  preprocessWithGemini true
    (fst (preprocessWithGemini true ∅ (js "Amethist ")
            (GeminiText (js "amethyst"))))
    (js "amethist") GeminiFailed
  = preprocessWithGemini true ∅ (js "Amethist ") (GeminiText (js "amethyst")).
Proof.
  apply corrected_name_is_remembered. reflexivity.
Defined.

Lemma grouping_witness :
  fetchAllProductsFromMySQL [ruby_row]
    [size_row "ruby-001" "6mm"; size_row "opal-009" "8mm";
     size_row "ruby-001" "8mm"]
  = Returned
      (List.map
         (fun row =>
            Product
              (product_of_row row
                 (variants_of (row_id row)
                    [size_row "ruby-001" "6mm"; size_row "opal-009" "8mm";
                     size_row "ruby-001" "8mm"])))
         [ruby_row]).
Proof.
  apply fetch_groups_variants_by_product.
  - intros row [<-|[<-|[<-|[]]]]; reflexivity.
  - intros row [<-|[]]. reflexivity.
Defined.

Lemma inherited_id_witness :
  exists message,
    fetchAllProductsFromMySQL [ruby_row]
      [size_row "ruby-001" "6mm"; size_row "constructor" "8mm"]
    = Thrown message.
Proof.
  apply inherited_variant_id_throws.
  exists (size_row "constructor" "8mm").
  split; [right; left; reflexivity|reflexivity].
Defined.

Lemma few_edits_witness :
  In garnet_beads
    (filterProductsWithFuzzy (JsArray [garnet_beads]) (JsArray [js "garnit"])).
Proof.
  apply (few_edits_still_match _ _ _ (js "garnit") (js "garnet") 1).
  - left. reflexivity.
  - left. reflexivity.
  - cbn. lia.
  - left. reflexivity.
  - cbn. lia.
  - do 4 apply edit_keep. apply edit_substitute, edit_keep, edit_done.
  - cbn. lia.
Defined.

Lemma matrix_cell_witness :
  nth 3 (nth 2 (matrix (js "kitten") (js "sitting")) []) 0
  = levenshteinDistance (take 3 (js "kitten")) (take 2 (js "sitting")).
Proof.
  apply matrix_cell_is_prefix_distance; cbn; lia.
Defined.

End MoreConcrete.

(** ** The transaction of [saveProductsToMySQL] *)

Section SaveLaws.

Context `{Database}.

Lemma variantsCount_from products : forall total,
  fold_left (fun total p => total + length (sp_variants p)) products total
  = total + variantsCount products.
Proof.
  unfold variantsCount.
  induction products as [|p ps IH]; intros total; cbn [fold_left].
  - lia.
  - rewrite IH, (IH (0 + _)). lia.
Qed.

Lemma variantsCount_cons p ps :
  variantsCount (p :: ps) = length (sp_variants p) + variantsCount ps.
Proof.
  unfold variantsCount at 1. cbn [fold_left]. apply variantsCount_from.
Qed.

Lemma stopped_at_first done c error :
  db_throws done c = Some error -> stopped_at done [c] error.
Proof.
  intros Hc. exists [], c. rewrite app_nil_r. split; [reflexivity|exact Hc].
Qed.

Lemma stopped_at_later done first made error done1 :
  done1 = done ++ first ->
  stopped_at done1 made error ->
  stopped_at done (first ++ made) error.
Proof.
  intros -> (before & c & -> & Hc). exists (first ++ before), c.
  split; [rewrite <- app_assoc; reflexivity|].
  rewrite app_assoc. exact Hc.
Qed.

(** What the inner loop has done when it stops: the inserts of an
    initial part of the variants, all of them when it returns. *)
Lemma insert_variants_made id variants :
  forall done n done' result,
  insert_variants id variants done n = (done', result) ->
  exists made,
    done' = done ++ made
    /\ made `prefix_of` List.map (InsertVariant id) variants
    /\ match result with
       | Returned m =>
           made = List.map (InsertVariant id) variants
           /\ m = n + length variants
       | Thrown error => stopped_at done made error
       end.
Proof.
  induction variants as [|v vs IH]; intros done n done' result Hrun;
    cbn [insert_variants await_call] in Hrun.
  - injection Hrun as <- <-. exists []. rewrite app_nil_r.
    repeat split; cbn; lia || reflexivity.
  - destruct (db_throws done (InsertVariant id v)) as [error|] eqn:Ec.
    + injection Hrun as <- <-. exists [InsertVariant id v].
      split; [reflexivity|split; [|apply stopped_at_first, Ec]].
      exists (List.map (InsertVariant id) vs). reflexivity.
    + destruct (IH _ _ _ _ Hrun) as (made & -> & Hpre & Hres).
      exists (InsertVariant id v :: made). rewrite <- app_assoc.
      split; [reflexivity|split].
      * cbn [List.map]. apply prefix_cons, Hpre.
      * destruct result as [m|error].
        -- destruct Hres as [-> ->]. cbn [List.map length].
           split; [reflexivity|lia].
        -- apply (stopped_at_later done [InsertVariant id v] _ _ _ eq_refl Hres).
Qed.

Lemma save_each_made products :
  forall done pu vu done' result,
  save_each products done pu vu = (done', result) ->
  exists made,
    done' = done ++ made
    /\ made `prefix_of` flat_map product_calls products
    /\ match result with
       | Returned (a, b) =>
           made = flat_map product_calls products
           /\ a = pu + length products
           /\ b = vu + variantsCount products
       | Thrown error => stopped_at done made error
       end.
Proof.
  induction products as [|p ps IH]; intros done pu vu done' result Hrun;
    cbn [save_each await_call] in Hrun.
  - injection Hrun as <- <-. exists []. rewrite app_nil_r.
    repeat split; cbn; lia || reflexivity.
  - cbn [flat_map]. unfold product_calls at 1 3.
    destruct (db_throws done (upsert_call p)) as [error|] eqn:Eup.
    { injection Hrun as <- <-. exists [upsert_call p].
      split; [reflexivity|split; [|apply stopped_at_first, Eup]].
      eexists. reflexivity. }
    destruct (db_throws (done ++ [upsert_call p]) (DeleteVariants (sp_id p)))
      as [error|] eqn:Edel.
    { injection Hrun as <- <-.
      exists [upsert_call p; DeleteVariants (sp_id p)].
      rewrite <- app_assoc. split; [reflexivity|split].
      - eexists. reflexivity.
      - apply (stopped_at_later done [upsert_call p] _ _ _ eq_refl),
          stopped_at_first, Edel. }
    destruct (insert_variants (sp_id p) (sp_variants p) _ vu)
      as [done1 [vu1|error]] eqn:Eins;
      apply insert_variants_made in Eins as (made1 & -> & Hpre1 & Hres1).
    + destruct Hres1 as [-> ->].
      destruct (IH _ _ _ _ _ Hrun) as (made & -> & Hpre & Hres).
      exists (upsert_call p :: DeleteVariants (sp_id p)
              :: List.map (InsertVariant (sp_id p)) (sp_variants p) ++ made).
      split; [rewrite <- !app_assoc; reflexivity|split].
      * cbn [app]. do 2 apply prefix_cons. apply prefix_app, Hpre.
      * destruct result as [[a b]|error].
        -- destruct Hres as (-> & -> & ->). rewrite variantsCount_cons.
           cbn [length]. repeat split; lia.
        -- refine (stopped_at_later done
                     (upsert_call p :: DeleteVariants (sp_id p)
                      :: List.map (InsertVariant (sp_id p)) (sp_variants p))
                     _ _ _ _ Hres).
           rewrite <- !app_assoc. reflexivity.
    + injection Hrun as <- <-.
      exists (upsert_call p :: DeleteVariants (sp_id p) :: made1).
      split; [rewrite <- !app_assoc; reflexivity|split].
      * do 2 apply prefix_cons.
        etransitivity; [exact Hpre1|]. apply prefix_app_r. reflexivity.
      * refine (stopped_at_later done
                  [upsert_call p; DeleteVariants (sp_id p)] _ _ _ _ Hres1).
        rewrite <- !app_assoc. reflexivity.
Qed.

(** The run up to the [try] block's end: the calls made are an initial
    part of the transaction, the whole of it when the block returns. *)
Lemma tried_made products done result :
  match await_call BeginTransaction [] with
  | (done, Some error) => (done, Thrown error)
  | (done, None) =>
      match save_each products done 0 0 with
      | (done, Thrown error) => (done, Thrown error)
      | (done, Returned counts) =>
          match await_call Commit done with
          | (done, Some error) => (done, Thrown error)
          | (done, None) => (done, Returned counts)
          end
      end
  end = (done, result) ->
  done `prefix_of` transaction products
  /\ match result with
     | Returned counts =>
         done = transaction products
         /\ counts = (length products, variantsCount products)
     | Thrown error => stopped_at [] done error
     end.
Proof.
  unfold await_call, transaction. cbn [app].
  destruct (db_throws [] BeginTransaction) as [error|] eqn:Ebegin.
  { intros Hrun. injection Hrun as <- <-.
    split; [eexists; reflexivity|apply stopped_at_first, Ebegin]. }
  destruct (save_each products [BeginTransaction] 0 0)
    as [done1 [[a b]|error]] eqn:Eloop;
    apply save_each_made in Eloop as (made & -> & Hpre & Hres).
  - destruct Hres as (-> & -> & ->).
    destruct (db_throws _ Commit) as [error|] eqn:Ecommit; intros Hrun;
      injection Hrun as <- <-; cbn [app].
    + split; [reflexivity|].
      exists (BeginTransaction :: flat_map product_calls products), Commit.
      split; [reflexivity|exact Ecommit].
    + repeat split; reflexivity.
  - intros Hrun. injection Hrun as <- <-. cbn [app]. split.
    + apply prefix_cons. etransitivity; [exact Hpre|].
      apply prefix_app_r. reflexivity.
    + apply (stopped_at_later [] [BeginTransaction] _ _ _ eq_refl Hres).
Qed.

(** X24. When [saveProductsToMySQL] returns, it has made the calls of
    the whole transaction, in order, and then released the connection;
    [productsUpdated] is the number of products and [variantsUpdated]
    the number of their variants, the count [syncShopifyToMySQL] logs as
    fetched. *)
Theorem save_returns_after_whole_transaction products calls counts :
  saveProductsToMySQL products = (calls, Returned counts) ->
  calls = transaction products ++ [Release]
  /\ counts = (length products, variantsCount products).
Proof.
  unfold saveProductsToMySQL.
  destruct (match await_call BeginTransaction [] with
            | (done, Some error) => (done, Thrown error)
            | (done, None) => _
            end) as [done [c|error]] eqn:Etry;
    apply tried_made in Etry as [Hpre Hres].
  - cbn [fst snd]. intros Hrun. injection Hrun as <- <-.
    destruct Hres as [-> ->]. split; reflexivity.
  - unfold await_call. destruct (db_throws done Rollback); discriminate.
Qed.



End SaveLaws.

Section SaveConcrete.

Lemma save_returns_witness :
  fst (saveProductsToMySQL (H := accepting) unpriced_beads)
  = transaction unpriced_beads ++ [Release]
  /\ (2, 3) = (length unpriced_beads, variantsCount unpriced_beads).
Proof.
  apply (save_returns_after_whole_transaction (H := accepting)). reflexivity.
Defined.



End SaveConcrete.
